(** * Caching strategies of the readings server (src/server.js)

    A shallow embedding of the Express server that demonstrates five Redis
    caching strategies over a MongoDB collection: cache-aside, read-through,
    write-through, write-behind and TTL expiration.

    The handlers of the source are asynchronous functions over two shared
    connections.  They are embedded as computations in a state-and-exception
    monad over a [world] that holds the Redis keyspace, the MongoDB
    collection, the Redis clock, the ObjectId generator of the process, the
    pending [setTimeout] callbacks and the console.  Every adapter call can
    reject: whether it does is read from a fault schedule in the world.

    What stands for the libraries the server is built on:
    - JSON values have integer-valued numbers; strings are sequences of
      bytes, the UTF-8 encoding of the JavaScript string;
    - [new ObjectId(id)] accepts the 24 character hexadecimal strings, as
      the bson library does from its version 6 on;
    - [new ObjectId()] draws from a counter of the process, which is what
      makes two identifiers of one process differ;
    - Redis reads one clock, in seconds, which does not advance while a
      handler runs. *)

From Stdlib Require Import ZArith NArith Ascii String List Lia.
From Stdlib Require Import Decimal DecimalFacts DecimalString DecimalZ DecimalPos.
From stdpp Require Import base option gmap strings list relations.

Set Warnings "-register-all".

Local Open Scope string_scope.
Local Open Scope Z_scope.

(** ** JavaScript values *)

(** The values that flow through the handlers: JSON values, plus the BSON
    [ObjectId] that the MongoDB driver puts in [_id].  Numbers are the
    integer-valued ones.  An object is the list of its own properties in
    insertion order (that JavaScript moves integer-like property names to
    the front is left out). *)
Inductive value : Type :=
| VNull
| VBool (b : bool)
| VNum (z : Z)
| VStr (s : string)
| VOid (o : N)
| VArr (l : list value)
| VObj (fs : list (string * value)).

Abbreviation document := (list (string * value)).

(** [!!v] *)
Definition truthy (v : value) : bool :=
  match v with
  | VNull => false
  | VBool b => b
  | VNum z => negb (z =? 0)
  | VStr s => negb (String.eqb s "")
  | VOid _ | VArr _ | VObj _ => true
  end.

(** [o[k]] on own properties. *)
Fixpoint obj_get (k : string) (o : document) : option value :=
  match o with
  | [] => None
  | (k', v) :: o' => if String.eqb k' k then Some v else obj_get k o'
  end.

(** [o[k] = v]: an existing property keeps its place, a new one goes last. *)
Fixpoint obj_set (k : string) (v : value) (o : document) : document :=
  match o with
  | [] => [(k, v)]
  | (k', v') :: o' =>
      if String.eqb k' k then (k', v) :: o' else (k', v') :: obj_set k v o'
  end.

(** The rest pattern [const { k, ...rest } = o]. *)
Fixpoint obj_del (k : string) (o : document) : document :=
  match o with
  | [] => []
  | (k', v) :: o' =>
      if String.eqb k' k then obj_del k o' else (k', v) :: obj_del k o'
  end.

(** Object spread [{ ...target, ...src }]: the properties of [src] are
    assigned in order onto [target]. *)
Definition spread (target src : document) : document :=
  fold_left (fun acc kv => obj_set (fst kv) (snd kv) acc) src target.

(** ** ObjectId *)

Definition hex_digit (n : N) : ascii :=
  if (n <? 10)%N then ascii_of_N (48 + n) else ascii_of_N (87 + n).

Definition hex_value (c : ascii) : option N :=
  let n := N_of_ascii c in
  if ((48 <=? n) && (n <=? 57))%N then Some (n - 48)%N
  else if ((97 <=? n) && (n <=? 102))%N then Some (n - 87)%N
  else if ((65 <=? n) && (n <=? 70))%N then Some (n - 55)%N
  else None.

(** The [k] low hexadecimal digits of [n], most significant first. *)
Fixpoint hex_digits (k : nat) (n : N) : string :=
  match k with
  | O => ""
  | S k' => hex_digits k' (n / 16) +:+ String (hex_digit (n mod 16)) ""
  end.

(** Reads hexadecimal digits onto the accumulator [acc]. *)
Fixpoint hex_parse (acc : N) (s : string) : option N :=
  match s with
  | "" => Some acc
  | String c s' =>
      match hex_value c with
      | Some d => hex_parse (16 * acc + d)%N s'
      | None => None
      end
  end.

(** [oid.toString()]: the 24 hexadecimal digits of the 12 bytes. *)
Definition oid_toString (o : N) : string := hex_digits 24 o.

(** [new ObjectId(id)] on a string: a 24 character hex string, or it throws. *)
Definition oid_of_string (id : string) : option N :=
  if (String.length id =? 24)%nat then hex_parse 0 id else None.

(** ** JSON text *)

Definition dquote : ascii := ascii_of_N 34.
Definition backslash : ascii := ascii_of_N 92.

Definition string_of_Z (z : Z) : string := NilZero.string_of_int (Z.to_int z).

(** One character of [QuoteJSONString]. *)
Definition escape_char (c : ascii) : string :=
  let n := N_of_ascii c in
  if (n =? 34)%N then String backslash (String dquote "")
  else if (n =? 92)%N then String backslash (String backslash "")
  else if (n =? 8)%N then String backslash "b"
  else if (n =? 12)%N then String backslash "f"
  else if (n =? 10)%N then String backslash "n"
  else if (n =? 13)%N then String backslash "r"
  else if (n =? 9)%N then String backslash "t"
  else if (n <? 32)%N then String backslash ("u00" +:+ hex_digits 2 n)
  else String c "".

Fixpoint quote_body (s : string) : string :=
  match s with
  | "" => ""
  | String c s' => escape_char c +:+ quote_body s'
  end.

Definition quoteJSONString (s : string) : string :=
  String dquote (quote_body s +:+ String dquote "").

(** [JSON.stringify(v)].  An [ObjectId] has a [toJSON] method that gives
    its hex string. *)
Fixpoint JSON_stringify (v : value) : string :=
  match v with
  | VNull => "null"
  | VBool true => "true"
  | VBool false => "false"
  | VNum z => string_of_Z z
  | VStr s => quoteJSONString s
  | VOid o => quoteJSONString (oid_toString o)
  | VArr l =>
      "[" +:+
      (fix elems (l : list value) : string :=
         match l with
         | [] => ""
         | x :: l' =>
             match l' with
             | [] => JSON_stringify x
             | _ :: _ => JSON_stringify x +:+ "," +:+ elems l'
             end
         end) l +:+ "]"
  | VObj fs =>
      "{" +:+
      (fix members (fs : list (string * value)) : string :=
         match fs with
         | [] => ""
         | (k, x) :: fs' =>
             match fs' with
             | [] => quoteJSONString k +:+ ":" +:+ JSON_stringify x
             | _ :: _ =>
                 quoteJSONString k +:+ ":" +:+ JSON_stringify x +:+ ","
                 +:+ members fs'
             end
         end) fs +:+ "}"
  end.

(** What a value becomes on the wire: [JSON.parse(JSON.stringify(v))]. *)
Fixpoint toJSON (v : value) : value :=
  match v with
  | VOid o => VStr (oid_toString o)
  | VArr l => VArr (map toJSON l)
  | VObj fs => VObj (map (fun kv => (fst kv, toJSON (snd kv))) fs)
  | _ => v
  end.

Definition is_ws (c : ascii) : bool :=
  let n := N_of_ascii c in
  ((n =? 32) || (n =? 9) || (n =? 10) || (n =? 13))%N.

Definition is_digit (c : ascii) : bool :=
  let n := N_of_ascii c in ((48 <=? n) && (n <=? 57))%N.

Fixpoint skip_ws (s : string) : string :=
  match s with
  | "" => ""
  | String c s' => if is_ws c then skip_ws s' else s
  end.

Fixpoint span_digits (s : string) : string * string :=
  match s with
  | "" => ("", "")
  | String c s' =>
      if is_digit c
      then let '(ds, r) := span_digits s' in (String c ds, r)
      else ("", s)
  end.

(** The bytes of the UTF-8 encoding of a code point of the basic plane. *)
Definition utf8 (cp : N) : option string :=
  if (cp <? 128)%N then Some (String (ascii_of_N cp) "")
  else if (cp <? 2048)%N then
    Some (String (ascii_of_N (192 + cp / 64))
            (String (ascii_of_N (128 + cp mod 64)) ""))
  else if ((55296 <=? cp) && (cp <=? 57343))%N then None
  else
    Some (String (ascii_of_N (224 + cp / 4096))
            (String (ascii_of_N (128 + (cp / 64) mod 64))
               (String (ascii_of_N (128 + cp mod 64)) ""))).

(** The characters of a string literal after its opening quote, up to and
    including the closing quote. *)
Fixpoint parse_chars (s : string) : option (string * string) :=
  match s with
  | "" => None
  | String c r =>
      let n := N_of_ascii c in
      if (n =? 34)%N then Some ("", r)
      else if (n =? 92)%N then
        match r with
        | "" => None
        | String e r' =>
            let m := N_of_ascii e in
            let simple (x : N) :=
              match parse_chars r' with
              | Some (t, rest) => Some (String (ascii_of_N x) t, rest)
              | None => None
              end in
            if (m =? 34)%N then simple 34%N
            else if (m =? 92)%N then simple 92%N
            else if (m =? 47)%N then simple 47%N
            else if (m =? 98)%N then simple 8%N
            else if (m =? 102)%N then simple 12%N
            else if (m =? 110)%N then simple 10%N
            else if (m =? 114)%N then simple 13%N
            else if (m =? 116)%N then simple 9%N
            else if (m =? 117)%N then
              match r' with
              | String h1 (String h2 (String h3 (String h4 r''))) =>
                  match hex_parse 0 (String h1 (String h2 (String h3 (String h4 ""))))
                  with
                  | Some cp =>
                      match utf8 cp, parse_chars r'' with
                      | Some bytes, Some (t, rest) => Some (bytes +:+ t, rest)
                      | _, _ => None
                      end
                  | None => None
                  end
              | _ => None
              end
            else None
        end
      else if (n <? 32)%N then None
      else
        match parse_chars r with
        | Some (t, rest) => Some (String c t, rest)
        | None => None
        end
  end.

(** An integer literal: an optional minus sign, then a single zero or a
    nonzero digit followed by digits.  A fraction or an exponent makes a
    number that is not integer-valued. *)
Definition parse_number (s : string) : option (value * string) :=
  let '(neg, s1) :=
    match s with
    | String c r => if (N_of_ascii c =? 45)%N then (true, r) else (false, s)
    | "" => (false, s)
    end in
  let '(ds, rest) := span_digits s1 in
  match NilZero.uint_of_string ds with
  | Some d =>
      if negb (Decimal.uint_beq (unorm d) d) then None
      else
        let continues :=
          match rest with
          | String c _ =>
              let n := N_of_ascii c in ((n =? 46) || (n =? 101) || (n =? 69))%N
          | "" => false
          end in
        if continues then None
        else Some (VNum (Z.of_int (if neg then Neg d else Pos d)), rest)
  | None => None
  end.

Definition strip_literal (p s : string) : option string :=
  if String.prefix p s
  then Some (String.substring (String.length p)
               (String.length s - String.length p) s)
  else None.

Fixpoint parse_value (fuel : nat) (s : string) : option (value * string) :=
  match fuel with
  | O => None
  | S fuel' =>
      match skip_ws s with
      | "" => None
      | String c r =>
          let n := N_of_ascii c in
          if (n =? 123)%N then
            match skip_ws r with
            | String c' r' =>
                if (N_of_ascii c' =? 125)%N then Some (VObj [], r')
                else
                  match parse_members fuel' [] r with
                  | Some (fs, rest) => Some (VObj fs, rest)
                  | None => None
                  end
            | "" => None
            end
          else if (n =? 91)%N then
            match skip_ws r with
            | String c' r' =>
                if (N_of_ascii c' =? 93)%N then Some (VArr [], r')
                else
                  match parse_elems fuel' [] r with
                  | Some (l, rest) => Some (VArr l, rest)
                  | None => None
                  end
            | "" => None
            end
          else if (n =? 34)%N then
            match parse_chars r with
            | Some (t, rest) => Some (VStr t, rest)
            | None => None
            end
          else if ((n =? 45)%N || is_digit c) then parse_number (String c r)
          else
            match strip_literal "true" (String c r) with
            | Some rest => Some (VBool true, rest)
            | None =>
                match strip_literal "false" (String c r) with
                | Some rest => Some (VBool false, rest)
                | None =>
                    match strip_literal "null" (String c r) with
                    | Some rest => Some (VNull, rest)
                    | None => None
                    end
                end
            end
      end
  end
with parse_elems (fuel : nat) (acc : list value) (s : string)
  : option (list value * string) :=
  match fuel with
  | O => None
  | S fuel' =>
      match parse_value fuel' s with
      | Some (v, r) =>
          match skip_ws r with
          | String c r' =>
              if (N_of_ascii c =? 44)%N then parse_elems fuel' (acc ++ [v])%list r'
              else if (N_of_ascii c =? 93)%N then Some ((acc ++ [v])%list, r')
              else None
          | "" => None
          end
      | None => None
      end
  end
with parse_members (fuel : nat) (acc : document) (s : string)
  : option (document * string) :=
  match fuel with
  | O => None
  | S fuel' =>
      match skip_ws s with
      | String q r =>
          if (N_of_ascii q =? 34)%N then
            match parse_chars r with
            | Some (k, r1) =>
                match skip_ws r1 with
                | String c r2 =>
                    if (N_of_ascii c =? 58)%N then
                      match parse_value fuel' r2 with
                      | Some (v, r3) =>
                          match skip_ws r3 with
                          | String c' r4 =>
                              if (N_of_ascii c' =? 44)%N
                              then parse_members fuel' (obj_set k v acc) r4
                              else if (N_of_ascii c' =? 125)%N
                              then Some (obj_set k v acc, r4)
                              else None
                          | "" => None
                          end
                      | None => None
                      end
                    else None
                | "" => None
                end
            | None => None
            end
          else None
      | "" => None
      end
  end.

(** [JSON.parse(text)]; [None] stands for the [SyntaxError] it throws.
    The texts in view are those whose numbers are integer literals and
    whose [\u] escapes name no surrogate. *)
Definition JSON_parse (text : string) : option value :=
  match parse_value (2 * String.length text + 2) text with
  | Some (v, rest) =>
      match skip_ws rest with
      | "" => Some v
      | String _ _ => None
      end
  | None => None
  end.

(** Structural equality of values, as MongoDB compares [_id]s. *)
Fixpoint value_eqb (a b : value) : bool :=
  match a, b with
  | VNull, VNull => true
  | VBool x, VBool y => Bool.eqb x y
  | VNum x, VNum y => (x =? y)
  | VStr x, VStr y => String.eqb x y
  | VOid x, VOid y => N.eqb x y
  | VArr l, VArr m =>
      (fix go (l m : list value) : bool :=
         match l, m with
         | [], [] => true
         | x :: l', y :: m' => value_eqb x y && go l' m'
         | _, _ => false
         end) l m
  | VObj f, VObj g =>
      (fix go (f g : list (string * value)) : bool :=
         match f, g with
         | [], [] => true
         | (k, x) :: f', (k', y) :: g' =>
             String.eqb k k' && value_eqb x y && go f' g'
         | _, _ => false
         end) f g
  | _, _ => false
  end.

(** [v.toString()], as applied to an inserted identifier.  [null] has no
    [toString], and an identifier is never [null]; inside an array [null]
    gives the empty string. *)
Fixpoint value_toString (v : value) : string :=
  match v with
  | VNull => ""
  | VBool true => "true"
  | VBool false => "false"
  | VNum z => string_of_Z z
  | VStr s => s
  | VOid o => oid_toString o
  | VArr l => String.concat "," (map value_toString l)
  | VObj _ => "[object Object]"
  end.

(** ** The world of the server *)

(** A Redis entry: the stored text and the instant it expires, if any. *)
Record entry := Entry { payload : string; expireAt : option Z }.

(** The closure handed to [setTimeout] by the write-behind handler: it
    captures [doc] and [tempId]. *)
Record flush_task := FlushTask { ft_doc : document; ft_tempId : N }.

(** The calls made on the two adapters. *)
Inductive op :=
| RedisGet (k : string)
| RedisSet (k text : string) (ex : option Z)
| RedisDel (k : string)
| RedisTtl (k : string)
| RedisPing
| MongoFindById (o : N)
| MongoFindBySensor (s : string)
| MongoInsert (d : document)
| MongoPing.

Record world := World {
  cache : gmap string entry;
  store : list document;
  now : Z;
  oid_next : N;
  faults : list bool;
  oplog : list op;
  timers : list flush_task;
  console : list string
}.

Definition set_cache (f : gmap string entry -> gmap string entry) (w : world) :=
  World (f (cache w)) (store w) (now w) (oid_next w) (faults w) (oplog w)
        (timers w) (console w).
Definition set_store (f : list document -> list document) (w : world) :=
  World (cache w) (f (store w)) (now w) (oid_next w) (faults w) (oplog w)
        (timers w) (console w).
Definition set_oid_next (n : N) (w : world) :=
  World (cache w) (store w) (now w) n (faults w) (oplog w) (timers w)
        (console w).
Definition set_timers (f : list flush_task -> list flush_task) (w : world) :=
  World (cache w) (store w) (now w) (oid_next w) (faults w) (oplog w)
        (f (timers w)) (console w).
Definition set_console (f : list string -> list string) (w : world) :=
  World (cache w) (store w) (now w) (oid_next w) (faults w) (oplog w)
        (timers w) (f (console w)).
Definition set_faults (fs : list bool) (w : world) :=
  World (cache w) (store w) (now w) (oid_next w) fs (oplog w) (timers w)
        (console w).

(** Time passing between two requests. *)
Definition elapse (dt : Z) (w : world) :=
  World (cache w) (store w) (now w + dt) (oid_next w) (faults w) (oplog w)
        (timers w) (console w).

(** ** Asynchronous code as state and exceptions *)

Inductive outcome (A : Type) :=
| Returned (a : A)
| Thrown (message : string).
Arguments Returned {A} a.
Arguments Thrown {A} message.

Definition M (A : Type) := world -> outcome A * world.

Definition ret {A} (a : A) : M A := fun w => (Returned a, w).
Definition throw {A} (message : string) : M A := fun w => (Thrown message, w).
Definition bind {A B} (m : M A) (k : A -> M B) : M B :=
  fun w =>
    match m w with
    | (Returned a, w') => k a w'
    | (Thrown e, w') => (Thrown e, w')
    end.
(** [try { m } catch (e) { h(e.message) }]; a bare [catch] ignores [e]. *)
Definition try_catch {A} (m : M A) (h : string -> M A) : M A :=
  fun w =>
    match m w with
    | (Returned a, w') => (Returned a, w')
    | (Thrown e, w') => h e w'
    end.
Definition modify (f : world -> world) : M unit := fun w => (Returned tt, f w).
Definition gets {A} (f : world -> A) : M A := fun w => (Returned (f w), w).

Declare Scope js_scope.
Delimit Scope js_scope with js.
Notation "'let!' x ':=' m 'in' k" := (bind m (fun x => k))
  (at level 10, x name, m at level 100, k at level 200) : js_scope.
Notation "m ';;' k" := (bind m (fun _ => k))
  (at level 100, k at level 200, right associativity) : js_scope.
Local Open Scope js_scope.

(** ** The adapters *)

Definition unavailable : string := "adapter unavailable".

(** Every adapter call is recorded, consumes one flag of the fault schedule
    and rejects when the flag is set. *)
Definition called (o : op) (w : world) : world :=
  World (cache w) (store w) (now w) (oid_next w) (tl (faults w))
        (oplog w ++ [o])%list (timers w) (console w).

Definition adapter_call (o : op) : M unit :=
  fun w =>
    match faults w with
    | true :: _ => (Thrown unavailable, called o w)
    | _ => (Returned tt, called o w)
    end.

Definition live (t : Z) (e : entry) : bool :=
  match expireAt e with
  | Some deadline => t <? deadline
  | None => true
  end.

Definition redis_lookup (w : world) (k : string) : option entry :=
  match cache w !! k with
  | Some e => if live (now w) e then Some e else None
  | None => None
  end.

(** [redis.get(k)] *)
Definition redis_get (k : string) : M (option string) :=
  adapter_call (RedisGet k) ;;
  gets (fun w => payload <$> redis_lookup w k).

Definition invalid_expire : string := "ERR invalid expire time in 'set' command".

(** [redis.set(k, text)] and [redis.set(k, text, 'EX', n)] *)
Definition redis_set (k text : string) (ex : option Z) : M unit :=
  adapter_call (RedisSet k text ex) ;;
  match ex with
  | None => modify (set_cache (insert k (Entry text None)))
  | Some n =>
      if n <=? 0 then throw invalid_expire
      else modify (fun w => set_cache (insert k (Entry text (Some (now w + n)))) w)
  end.

(** [redis.del(k)] *)
Definition redis_del (k : string) : M unit :=
  adapter_call (RedisDel k) ;;
  modify (set_cache (delete k)).

(** [redis.ttl(k)]: -2 without the key, -1 without an expiration. *)
Definition redis_ttl (k : string) : M Z :=
  adapter_call (RedisTtl k) ;;
  gets (fun w =>
          match redis_lookup w k with
          | None => -2
          | Some e =>
              match expireAt e with
              | None => -1
              | Some deadline => deadline - now w
              end
          end).

(** [new ObjectId()]: the next identifier of the generator of the process.
    The driver builds it from the time, a random value of the process and a
    counter; the counter alone is kept. *)
Definition new_ObjectId : M N :=
  fun w => (Returned (oid_next w), set_oid_next (oid_next w + 1)%N w).

Definition invalid_oid : string :=
  "input must be a 24 character hex string, 12 byte Uint8Array, or an integer".

(** [new ObjectId(id)] *)
Definition ObjectId_from (id : string) : M N :=
  match oid_of_string id with
  | Some o => ret o
  | None => throw invalid_oid
  end.

Definition has_oid (o : N) (d : document) : bool :=
  match obj_get "_id" d with
  | Some (VOid o') => N.eqb o' o
  | _ => false
  end.

Definition is_str (s : string) (v : value) : bool :=
  match v with
  | VStr s' => String.eqb s' s
  | _ => false
  end.

(** A field matches a string when it is that string or an array that holds it. *)
Definition has_sensor (s : string) (d : document) : bool :=
  match obj_get "sensorId" d with
  | Some (VArr l) => existsb (is_str s) l
  | Some v => is_str s v
  | None => false
  end.

(** [readings.findOne({ _id: o })] *)
Definition findOne_by_id (o : N) : M (option document) :=
  adapter_call (MongoFindById o) ;;
  gets (fun w => List.find (has_oid o) (store w)).

(** [readings.findOne({ sensorId: s })] *)
Definition findOne_by_sensor (s : string) : M (option document) :=
  adapter_call (MongoFindBySensor s) ;;
  gets (fun w => List.find (has_sensor s) (store w)).

Definition has_id (v : value) (d : document) : bool :=
  match obj_get "_id" d with
  | Some v' => value_eqb v' v
  | None => false
  end.

Definition duplicate_key : string := "E11000 duplicate key error".

(** [readings.insertOne(doc)].  The driver gives the document an [_id] when
    it has none, by assignment on the object it was passed, then sends it;
    the server rejects an [_id] that the collection already holds.  The
    result is [insertedId] together with the document as the caller now
    sees it. *)
Definition insertOne (doc : document) : M (value * document) :=
  let! assigned :=
    match obj_get "_id" doc with
    | Some VNull | None =>
        let! o := new_ObjectId in ret (VOid o, obj_set "_id" (VOid o) doc)
    | Some v => ret (v, doc)
    end in
  let '(insertedId, doc') := assigned in
  adapter_call (MongoInsert doc') ;;
  let! taken := gets (fun w => existsb (has_id insertedId) (store w)) in
  if taken : bool then throw duplicate_key
  else
    modify (set_store (fun s => s ++ [doc'])%list) ;;
    ret (insertedId, doc').

(** [setTimeout(callback, 100)] *)
Definition setTimeout (t : flush_task) : M unit :=
  modify (set_timers (fun ts => ts ++ [t])%list).

Definition console_log (line : string) : M unit :=
  modify (set_console (fun c => c ++ [line])%list).

(** ** The server *)

(** [const key = (id) => `readings:${id}`] *)
Definition key (id : string) : string := "readings:" +:+ id.

Definition doc_or_null (d : option document) : value :=
  match d with
  | Some fs => VObj fs
  | None => VNull
  end.

(** [getFromMongo(id)] *)
Definition getFromMongo (id : string) : M value :=
  let! doc :=
    try_catch
      (let! o := ObjectId_from id in findOne_by_id o)
      (fun _ => findOne_by_sensor id) in
  ret (doc_or_null doc).

(** [setCacheJSON(k, value, ttlSec = null)] *)
Definition setCacheJSON (k : string) (v : value) (ttlSec : option Z) : M unit :=
  let text := JSON_stringify v in
  match ttlSec with
  | Some n => if n =? 0 then redis_set k text None else redis_set k text (Some n)
  | None => redis_set k text None
  end.

Definition syntax_error : string := "Unexpected token in JSON".

(** [raw ? JSON.parse(raw) : null] *)
Definition parse_raw (raw : option string) : outcome value :=
  match raw with
  | Some text =>
      if String.eqb text "" then Returned VNull
      else
        match JSON_parse text with
        | Some v => Returned v
        | None => Thrown syntax_error
        end
  | None => Returned VNull
  end.

(** [getCacheJSON(k)] *)
Definition getCacheJSON (k : string) : M value :=
  let! raw := redis_get k in
  fun w => (parse_raw raw, w).

(** What a handler sends: the status and the body given to [res.json]. *)
Record response := Response { status : Z; body : value }.

Definition error_body (message : string) : value :=
  VObj [("error", VStr message)].

(** [try { ... return res.json(x) } catch (e) { return
    res.status(500).json({ error: e.message }) }] *)
Definition handler (m : M response) : world -> response * world :=
  fun w =>
    match m w with
    | (Returned r, w') => (r, w')
    | (Thrown e, w') => (Response 500 (error_body e), w')
    end.

(** [GET /v1/cache-aside/readings/:id] *)
Definition cache_aside (id : string) : world -> response * world :=
  handler (
    let k := key id in
    let! data := getCacheJSON k in
    let warm := truthy data in
    let! data :=
      if negb (truthy data) then
        let! data := getFromMongo id in
        (if truthy data then setCacheJSON k data None else ret tt) ;;
        ret data
      else ret data in
    ret (Response 200
           (VObj [("strategy", VStr "cache-aside"); ("warm", VBool warm);
                  ("data", data)]))).

(** [GET /v1/read-through/readings/:id] *)
Definition read_through (id : string) : world -> response * world :=
  handler (
    let k := key id in
    let! data := getCacheJSON k in
    let warm := truthy data in
    let! data :=
      if negb (truthy data) then
        let! data := getFromMongo id in
        (if truthy data then setCacheJSON k data None else ret tt) ;;
        ret data
      else ret data in
    ret (Response 200
           (VObj [("strategy", VStr "read-through"); ("warm", VBool warm);
                  ("data", data)]))).

(** [req.body || {}] *)
Definition body_or_empty (req_body : option document) : document :=
  match req_body with
  | Some b => b
  | None => []
  end.

(** [POST /v1/write-through/readings] *)
Definition write_through (req_body : option document) : world -> response * world :=
  handler (
    let body := body_or_empty req_body in
    let! inserted := insertOne body in
    let '(insertedId, body) := inserted in
    let doc := spread [("_id", insertedId)] body in
    setCacheJSON (key (value_toString insertedId)) (VObj doc) None ;;
    ret (Response 201
           (VObj [("strategy", VStr "write-through"); ("doc", VObj doc)]))).

(** The callback of the write-behind handler. *)
Definition flush (t : flush_task) : M unit :=
  try_catch (
    let rest := obj_del "_id" (ft_doc t) in
    let! inserted := insertOne rest in
    let '(insertedId, rest) := inserted in
    redis_del (key (oid_toString (ft_tempId t))) ;;
    let persisted := spread [("_id", insertedId)] rest in
    setCacheJSON (key (value_toString insertedId)) (VObj persisted) None ;;
    console_log ("write-behind persisted: " +:+ value_toString insertedId))
  (fun message => console_log ("write-behind flush failed: " +:+ message)).

(** [POST /v1/write-behind/readings] *)
Definition write_behind (req_body : option document) : world -> response * world :=
  handler (
    let! tempId := new_ObjectId in
    let doc := spread [("_id", VOid tempId)] (body_or_empty req_body) in
    setCacheJSON (key (oid_toString tempId)) (VObj doc) None ;;
    setTimeout (FlushTask doc tempId) ;;
    ret (Response 202
           (VObj [("strategy", VStr "write-behind"); ("queued", VBool true);
                  ("doc", VObj doc)]))).

(** [GET /v1/ttl/readings/:id]; [ttl] is [Number(DEFAULT_TTL_SECONDS)]. *)
Definition ttl_readings (ttl : Z) (id : string) : world -> response * world :=
  handler (
    let k := key id in
    let! data := getCacheJSON k in
    let warm := truthy data in
    let! data :=
      if negb (truthy data) then
        let! data := getFromMongo id in
        (if truthy data then setCacheJSON k data (Some ttl) else ret tt) ;;
        ret data
      else ret data in
    let! ttlLeft := redis_ttl k in
    ret (Response 200
           (VObj [("strategy", VStr "ttl"); ("warm", VBool warm);
                  ("ttlLeftSeconds", VNum ttlLeft); ("data", data)]))).

(** The defaults of [MONGO_DB] and [MONGO_COLL]. *)
Definition MONGO_DB : string := "AgriDB".
Definition MONGO_COLL : string := "readings".

(** [GET /health] *)
Definition health : world -> response * world :=
  fun w =>
    match (adapter_call RedisPing ;;
           adapter_call MongoPing ;;
           ret (Response 200
                  (VObj [("status", VStr "ok"); ("redis", VStr "PONG");
                         ("mongoDb", VStr MONGO_DB);
                         ("collection", VStr MONGO_COLL);
                         ("message", VStr "Connected to Redis and MongoDB")])))
            w
    with
    | (Returned r, w') => (r, w')
    | (Thrown e, w') =>
        (Response 500 (VObj [("status", VStr "error"); ("error", VStr e)]), w')
    end.

(** [GET /bench/:id], without the two timings of its answer.  Express has
    no [app.inject], so that line does nothing. *)
Definition bench (id : string) : world -> response * world :=
  handler (
    let k := key id in
    redis_del k ;;
    let! data := getCacheJSON k in
    (if negb (truthy data) then
       let! fromDb := getFromMongo id in
       if truthy fromDb then setCacheJSON k fromDb None else ret tt
     else ret tt) ;;
    let! warm := getCacheJSON k in
    ret (Response 200 (VObj [("id", VStr id)]))).

(** The event loop runs the oldest pending timer. *)
Definition fire (w : world) : world :=
  match timers w with
  | [] => w
  | t :: ts => snd (flush t (set_timers (fun _ => ts) w))
  end.

(** What can happen to the server: a request on one of its routes, a timer
    that fires, time that passes, and the environment deciding which of the
    coming adapter calls reject. *)
Inductive step : world -> world -> Prop :=
| step_cache_aside id w : step w (snd (cache_aside id w))
| step_read_through id w : step w (snd (read_through id w))
| step_write_through b w : step w (snd (write_through b w))
| step_write_behind b w : step w (snd (write_behind b w))
| step_ttl ttl id w : step w (snd (ttl_readings ttl id w))
| step_health w : step w (snd (health w))
| step_bench id w : step w (snd (bench id w))
| step_fire w : step w (fire w)
| step_elapse dt w : 0 <= dt -> step w (elapse dt w)
| step_faults fs w : step w (set_faults fs w).

(** ** Observations *)

Definition is_mongo_lookup (o : op) : bool :=
  match o with
  | MongoFindById _ | MongoFindBySensor _ => true
  | _ => false
  end.

Definition is_mongo_write (o : op) : bool :=
  match o with
  | MongoInsert _ => true
  | _ => false
  end.

Definition is_mongo_op (o : op) : bool :=
  match o with
  | MongoFindById _ | MongoFindBySensor _ | MongoInsert _ | MongoPing => true
  | _ => false
  end.

Definition is_redis_op (o : op) : bool := negb (is_mongo_op o).

Definition is_sensor_lookup (o : op) : bool :=
  match o with
  | MongoFindBySensor _ => true
  | _ => false
  end.

(** The adapter calls made between two worlds. *)
Definition calls (w w' : world) : list op := drop (length (oplog w)) (oplog w').

(** A world without pending faults. *)
Definition healthy (w : world) : Prop := Forall (fun b => b = false) (faults w).

Definition field (k : string) (v : value) : option value :=
  match v with
  | VObj fs => obj_get k fs
  | _ => None
  end.

(** Whether the next adapter call rejects. *)
Definition next_rejects (w : world) : bool := hd false (faults w).

(** What [getFromMongo] finds when its lookup does not reject. *)
Definition store_lookup (id : string) (s : list document) : option document :=
  match oid_of_string id with
  | Some o => List.find (has_oid o) s
  | None => List.find (has_sensor id) s
  end.

(** What [getCacheJSON] reads at [k] when its call does not reject. *)
Definition cached (w : world) (k : string) : outcome value :=
  parse_raw (payload <$> redis_lookup w k).

Definition cache_miss (w : world) (k : string) : Prop :=
  exists v, cached w k = Returned v /\ truthy v = false.

Definition cache_hit (w : world) (k : string) (v : value) : Prop :=
  cached w k = Returned v /\ truthy v = true.

(** The adapter call by which [getFromMongo] looks [id] up first. *)
Definition lookup_op (id : string) : op :=
  match oid_of_string id with
  | Some o => MongoFindById o
  | None => MongoFindBySensor id
  end.

(** The body of a successful read. *)
Definition read_body (strategy : string) (warm : bool) (data : value) : value :=
  VObj [("strategy", VStr strategy); ("warm", VBool warm); ("data", data)].

(** A computation that never moves the ObjectId generator backwards. *)
Definition forward {A} (m : M A) : Prop :=
  forall w r w', m w = (r, w') -> (oid_next w <= oid_next w')%N.

(** ** JSON texts, for the proofs *)

Fixpoint stringify_elems (l : list value) : string :=
  match l with
  | [] => ""
  | x :: l' =>
      match l' with
      | [] => JSON_stringify x
      | _ :: _ => JSON_stringify x +:+ "," +:+ stringify_elems l'
      end
  end.

Fixpoint stringify_members (fs : list (string * value)) : string :=
  match fs with
  | [] => ""
  | (k, x) :: fs' =>
      match fs' with
      | [] => quoteJSONString k +:+ ":" +:+ JSON_stringify x
      | _ :: _ =>
          quoteJSONString k +:+ ":" +:+ JSON_stringify x +:+ ","
          +:+ stringify_members fs'
      end
  end.

Fixpoint nodup_keys (ks : list string) : bool :=
  match ks with
  | [] => true
  | k :: ks' => negb (existsb (String.eqb k) ks') && nodup_keys ks'
  end.

(** The values a JavaScript object graph can hold: no object has two
    properties of the same name. *)
Fixpoint wf_value (v : value) : bool :=
  match v with
  | VArr l => forallb wf_value l
  | VObj fs =>
      nodup_keys (map fst fs) && forallb (fun kv => wf_value (snd kv)) fs
  | _ => true
  end.

(** The fuel that parsing the text of a value takes. *)
Fixpoint vsize (v : value) : nat :=
  match v with
  | VArr l => S (length l + list_sum (map vsize l))
  | VObj fs => S (length fs + list_sum (map (fun kv => vsize (snd kv)) fs))
  | _ => 1
  end.

(** A text after which a number literal ends. *)
Definition ends_number (rest : string) : bool :=
  match rest with
  | "" => true
  | String c _ =>
      let n := N_of_ascii c in
      negb (is_digit c) && negb ((n =? 46) || (n =? 101) || (n =? 69))%N
  end.

Definition toJSON_field (kv : string * value) : string * value :=
  (fst kv, toJSON (snd kv)).

(** The parser reads back the text of [v], whatever follows it. *)
Definition parses (v : value) : Prop :=
  wf_value v = true ->
  forall fuel rest,
    (vsize v <= fuel)%nat -> ends_number rest = true ->
    parse_value fuel (JSON_stringify v +:+ rest) = Some (toJSON v, rest).

(** ** Sample worlds *)

Definition empty_world : world :=
  World ∅ [] 0 0%N [] [] [] [].

Definition reading_s1 : document :=
  [("sensorId", VStr "s1"); ("reading", VNum 42)].

(** A collection that holds one reading, and a cold cache. *)
Definition w_one_reading : world :=
  set_store (fun _ => [obj_set "_id" (VOid 0) reading_s1]) empty_world.

(** The next adapter call rejects. *)
Definition w_first_call_rejects : world := set_faults [true] empty_world.

(** The adapter call after the next one rejects. *)
Definition w_second_call_rejects : world := set_faults [false; true] empty_world.



(** ** Frames and invariants, for the proofs *)

(** Every run of [m] relates the world it starts in to the world it leaves. *)
Definition keeps {A} (R : world -> world -> Prop) (m : M A) : Prop :=
  forall w r w', m w = (r, w') -> R w w'.

(** The collection of [w'] is the collection of [w] with documents added at
    its end. *)
Definition store_grows (w w' : world) : Prop :=
  exists l, store w' = (store w ++ l)%list.

(** The key that a Redis call names. *)
Definition redis_key (o : op) : option string :=
  match o with
  | RedisGet k | RedisSet k _ _ | RedisDel k | RedisTtl k => Some k
  | _ => None
  end.

(** A call that names a key names one that begins with [readings:]. *)
Definition in_namespace (o : op) : bool :=
  match redis_key o with
  | Some k => String.prefix "readings:" k
  | None => true
  end.

(** From [w] to [w'] the log of adapter calls only grew, by calls that
    satisfy [P]. *)
Definition logs (P : op -> bool) (w w' : world) : Prop :=
  exists l, oplog w' = (oplog w ++ l)%list /\ forallb P l = true.

(** Every text of the keyspace, expired or not, was written by
    [JSON.stringify]. *)
Definition sound_cache (w : world) : Prop :=
  forall k e, cache w !! k = Some e -> exists v, payload e = JSON_stringify v.

Definition stays_sound (w w' : world) : Prop := sound_cache w -> sound_cache w'.

Definition reads_only (o : op) : bool := negb (is_mongo_write o).

(** Nothing but the keyspace, the fault schedule and the log of calls
    differs between [w] and [w']. *)
Definition cache_only (w w' : world) : Prop :=
  store w' = store w /\ now w' = now w /\ oid_next w' = oid_next w /\
  timers w' = timers w /\ console w' = console w.

Definition reads (w w' : world) : Prop :=
  cache_only w w' /\ logs reads_only w w'.

Definition same_timers (w w' : world) : Prop := timers w' = timers w.

(** From a sound keyspace, [m] leaves a sound keyspace, returns only values
    that satisfy [Q] and never throws the syntax error of [JSON.parse]. *)
Definition sound_run {A} (Q : A -> Prop) (m : M A) : Prop :=
  forall w r w',
    sound_cache w -> m w = (r, w') ->
    sound_cache w' /\
    match r with
    | Returned a => Q a
    | Thrown e => e <> syntax_error
    end.

Definition any_result {A} (a : A) : Prop := True.

(** [JSON.parse(JSON.stringify(v))] for every [v]: an object that was built
    with a property name twice keeps the first position of the name and the
    last of its values, as the object that [JSON.parse] builds does. *)
Fixpoint canon (v : value) : value :=
  match v with
  | VOid o => VStr (oid_toString o)
  | VArr l => VArr (map canon l)
  | VObj fs =>
      VObj (fold_left (fun acc kv => obj_set (fst kv) (canon (snd kv)) acc) fs [])
  | _ => v
  end.

Definition reads_back (v : value) : Prop :=
  forall fuel rest,
    (vsize v <= fuel)%nat -> ends_number rest = true ->
    parse_value fuel (JSON_stringify v +:+ rest) = Some (canon v, rest).

(** What [redis.ttl(k)] answers when it does not reject. *)
Definition remaining (w : world) (k : string) : Z :=
  match redis_lookup w k with
  | None => -2
  | Some e =>
      match expireAt e with
      | None => -1
      | Some deadline => deadline - now w
      end
  end.

(** The body of a successful TTL read. *)
Definition ttl_body (warm : bool) (left : Z) (data : value) : value :=
  VObj [("strategy", VStr "ttl"); ("warm", VBool warm);
        ("ttlLeftSeconds", VNum left); ("data", data)].

(** The line that the callback of write-behind logs when it fails. *)
Definition flush_failed (message : string) : string :=
  "write-behind flush failed: " +:+ message.

(** ** More sample worlds *)

(** The reading is in the collection and, without expiration, in the cache. *)
Definition w_warm_forever : world :=
  snd (cache_aside "s1" w_one_reading).

(** The task that a write-behind of the reading schedules in the empty world. *)
Definition t_reading : flush_task :=
  FlushTask (("_id", VOid 0) :: reading_s1) 0.

(** * Properties *)

(** ** Strings, keys and identifiers *)

Lemma key_inj a b : key a = key b -> a = b.
Proof. unfold key. simpl. intros H. by simplify_eq. Qed.

Lemma hex_parse_app s1 s2 acc :
  hex_parse acc (s1 +:+ s2) =
  match hex_parse acc s1 with
  | Some a => hex_parse a s2
  | None => None
  end.
Proof.
  revert acc. induction s1 as [|c s1 IH]; intros acc; simpl; [done|].
  destruct (hex_value c); [apply IH | done].
Qed.

Lemma hex_value_digit n : (n < 16)%N -> hex_value (hex_digit n) = Some n.
Proof.
  intros H.
  assert (Hc : In n (map N.of_nat (seq 0 16))).
  { replace n with (N.of_nat (N.to_nat n)) by lia. apply in_map, in_seq. lia. }
  simpl in Hc. repeat (destruct Hc as [<- | Hc]; [reflexivity|]). destruct Hc.
Qed.

Lemma hex_parse_digits k n acc :
  hex_parse acc (hex_digits k n) = Some (acc * 16 ^ N.of_nat k + n mod 16 ^ N.of_nat k)%N.
Proof.
  revert n acc. induction k as [|k IH]; intros n acc.
  - simpl. f_equal. rewrite N.mod_1_r. lia.
  - cbn [hex_digits]. rewrite hex_parse_app, IH. cbn [hex_parse].
    rewrite hex_value_digit by (apply N.mod_lt; lia).
    f_equal. rewrite Nat2N.inj_succ, N.pow_succ_r'.
    rewrite (N.Div0.mod_mul_r n 16 (16 ^ N.of_nat k)). lia.
Qed.

Lemma string_app_cons c s t : String c s +:+ t = String c (s +:+ t).
Proof. reflexivity. Qed.

Lemma string_app_nil_l t : "" +:+ t = t.
Proof. reflexivity. Qed.

Lemma string_length_app s t :
  String.length (s +:+ t) = (String.length s + String.length t)%nat.
Proof.
  induction s as [|c s IH]; [done|].
  rewrite string_app_cons. simpl. by rewrite IH.
Qed.

Lemma string_app_assoc s t u : (s +:+ t) +:+ u = s +:+ (t +:+ u).
Proof.
  induction s as [|c s IH]; [done|].
  rewrite !string_app_cons. by rewrite IH.
Qed.

Lemma length_hex_digits k n : String.length (hex_digits k n) = k.
Proof.
  revert n. induction k as [|k IH]; intros n; [done|].
  cbn [hex_digits]. rewrite string_length_app, IH. simpl. lia.
Qed.

Lemma oid_of_string_toString o :
  (o < 2 ^ 96)%N -> oid_of_string (oid_toString o) = Some o.
Proof.
  intros H. unfold oid_of_string, oid_toString.
  rewrite length_hex_digits, Nat.eqb_refl, hex_parse_digits.
  f_equal. change (16 ^ N.of_nat 24)%N with (2 ^ 96)%N.
  rewrite N.mod_small by done. lia.
Qed.

Lemma oid_toString_inj a b :
  (a < 2 ^ 96)%N -> (b < 2 ^ 96)%N -> oid_toString a = oid_toString b -> a = b.
Proof.
  intros Ha Hb H. apply oid_of_string_toString in Ha, Hb. congruence.
Qed.

Arguments JSON_stringify : simpl never.
Arguments JSON_parse : simpl never.
Arguments setCacheJSON : simpl never.
Arguments getCacheJSON : simpl never.
Arguments getFromMongo : simpl never.
Arguments insertOne : simpl never.
Arguments cached : simpl never.
Arguments redis_ttl : simpl never.
Arguments redis_del : simpl never.

(** ** JSON: parsing reads back what stringifying wrote *)

Lemma parse_chars_escape c t :
  parse_chars (escape_char c +:+ t) =
  match parse_chars t with
  | Some (s, r) => Some (String c s, r)
  | None => None
  end.
Proof.
  destruct c as [[] [] [] [] [] [] [] []]; reflexivity.
Qed.

Lemma parse_chars_quote_body s rest :
  parse_chars (quote_body s +:+ String dquote rest) = Some (s, rest).
Proof.
  induction s as [|c s IH]; [reflexivity|].
  cbn [quote_body]. rewrite string_app_assoc, parse_chars_escape. by rewrite IH.
Qed.

Lemma span_digits_uint d rest :
  ends_number rest = true ->
  span_digits (NilEmpty.string_of_uint d +:+ rest) =
  (NilEmpty.string_of_uint d, rest).
Proof.
  intros Hrest. induction d; cbn [NilEmpty.string_of_uint];
    rewrite ?string_app_cons; cbn [span_digits]; rewrite ?IHd; try reflexivity.
  rewrite string_app_nil_l. destruct rest as [|c r]; [done|].
  cbn [span_digits]. simpl in Hrest. by destruct (is_digit c).
Qed.

Lemma to_int_norm z : norm (Z.to_int z) = Z.to_int z.
Proof. rewrite <- (DecimalZ.to_of (Z.to_int z)). by rewrite DecimalZ.of_to. Qed.

Lemma uint_beq_refl d : Decimal.uint_beq d d = true.
Proof. induction d; simpl; auto. Qed.

Lemma parse_number_uint neg d rest :
  d <> Nil -> unorm d = d -> ends_number rest = true ->
  parse_number
    ((if neg : bool then "-" else "") +:+ NilEmpty.string_of_uint d +:+ rest) =
  Some (VNum (Z.of_int (if neg then Neg d else Pos d)), rest).
Proof.
  intros Hnil Hnorm Hrest. unfold parse_number.
  assert (Hhead :
    (let '(neg', s1) :=
       match (if neg then "-" else "") +:+ NilEmpty.string_of_uint d +:+ rest with
       | String c r => if (N_of_ascii c =? 45)%N then (true, r)
                       else (false, (if neg then "-" else "") +:+ NilEmpty.string_of_uint d +:+ rest)
       | "" => (false, (if neg then "-" else "") +:+ NilEmpty.string_of_uint d +:+ rest)
       end in (neg', s1)) = (neg, NilEmpty.string_of_uint d +:+ rest)).
  { destruct neg; [reflexivity|]. rewrite string_app_nil_l.
    destruct d; try done; reflexivity. }
  destruct (match _ +:+ _ with "" => _ | String c r => _ end) as [neg' s1].
  injection Hhead as -> ->.
  rewrite span_digits_uint by done.
  assert (Hu : NilZero.uint_of_string (NilEmpty.string_of_uint d) = Some d).
  { rewrite <- (NilZero.usu d Hnil) at 1. f_equal. by destruct d. }
  rewrite Hu, Hnorm, uint_beq_refl. simpl.
  destruct rest as [|c r]; [done|]. simpl in Hrest.
  apply andb_true_iff in Hrest as [_ Hc]. apply negb_true_iff in Hc.
  by rewrite Hc.
Qed.

Lemma parse_number_Z z rest :
  ends_number rest = true ->
  parse_number (string_of_Z z +:+ rest) = Some (VNum z, rest).
Proof.
  intros Hrest. unfold string_of_Z.
  pose proof (to_int_norm z) as Hn. pose proof (DecimalZ.of_to z) as Hz.
  destruct (Z.to_int z) as [d|d] eqn:E.
  - assert (Hd : d <> Nil).
    { intros ->. discriminate Hn. }
    simpl in Hn. injection Hn as Hn.
    rewrite <- Hz. cbn [NilZero.string_of_int].
    replace (NilZero.string_of_uint d) with (NilEmpty.string_of_uint d)
      by (by destruct d).
    apply (parse_number_uint false d rest Hd Hn Hrest).
  - assert (Hd : d <> Nil /\ unorm d = d).
    { simpl in Hn. unfold unorm. destruct (nzhead d) eqn:Eh; simplify_eq; done. }
    destruct Hd as [Hd Hu]. rewrite <- Hz. cbn [NilZero.string_of_int].
    replace (NilZero.string_of_uint d) with (NilEmpty.string_of_uint d)
      by (by destruct d).
    apply (parse_number_uint true d rest Hd Hu Hrest).
Qed.

Lemma stringify_arr l : JSON_stringify (VArr l) = "[" +:+ stringify_elems l +:+ "]".
Proof. reflexivity. Qed.

Lemma stringify_obj fs : JSON_stringify (VObj fs) = "{" +:+ stringify_members fs +:+ "}".
Proof. reflexivity. Qed.

Lemma value_ind' (P : value -> Prop) :
  P VNull -> (forall b, P (VBool b)) -> (forall z, P (VNum z)) ->
  (forall s, P (VStr s)) -> (forall o, P (VOid o)) ->
  (forall l, Forall P l -> P (VArr l)) ->
  (forall fs, Forall (fun kv => P (snd kv)) fs -> P (VObj fs)) ->
  forall v, P v.
Proof.
  intros Hnull Hbool Hnum Hstr Hoid Harr Hobj.
  fix IH 1. intros [|b|z|s|o|l|fs].
  - exact Hnull.
  - exact (Hbool b).
  - exact (Hnum z).
  - exact (Hstr s).
  - exact (Hoid o).
  - apply Harr. induction l as [|x l IHl]; constructor; [apply IH|exact IHl].
  - apply Hobj. induction fs as [|[k x] fs IHfs]; constructor;
      [apply IH|exact IHfs].
Qed.

Lemma string_app_nil_r s : s +:+ "" = s.
Proof. induction s as [|c s IH]; [done|]. by rewrite string_app_cons, IH. Qed.

Lemma string_of_Z_head z :
  exists c t, string_of_Z z = String c t /\
              ((N_of_ascii c = 45)%N \/ is_digit c = true).
Proof.
  unfold string_of_Z. destruct (Z.to_int z) as [d|d].
  - destruct d; eexists _, _; (split; [reflexivity|right; reflexivity]).
  - eexists _, _. split; [reflexivity|left; reflexivity].
Qed.

Lemma stringify_head v :
  exists c t, JSON_stringify v = String c t /\ is_ws c = false /\
              (N_of_ascii c =? 93)%N = false.
Proof.
  destruct v as [|[]|z|s|o|l|fs];
    try (eexists _, _; split; [reflexivity|split; reflexivity]).
  destruct (string_of_Z_head z) as (c & t & Hz & Hc).
  exists c, t. split; [exact Hz|].
  unfold is_ws, is_digit in *. destruct Hc as [->|Hc]; [done|].
  apply andb_true_iff in Hc as [H1 H2].
  apply N.leb_le in H1, H2.
  repeat (rewrite (proj2 (N.eqb_neq _ _)) by lia). done.
Qed.

Lemma skip_ws_stringify v rest :
  skip_ws (JSON_stringify v +:+ rest) = JSON_stringify v +:+ rest.
Proof.
  destruct (stringify_head v) as (c & t & -> & Hws & _).
  rewrite string_app_cons. simpl. by rewrite Hws.
Qed.

Lemma substring_all s : substring 0 (String.length s) s = s.
Proof. induction s as [|c s IH]; [done|]. simpl. by rewrite IH. Qed.

Lemma strip_literal_app p rest : strip_literal p (p +:+ rest) = Some rest.
Proof.
  unfold strip_literal.
  assert (Hp : String.prefix p (p +:+ rest) = true).
  { induction p as [|c p IH]; [by destruct rest|].
    rewrite string_app_cons. simpl. by destruct (ascii_dec c c). }
  rewrite Hp. f_equal. rewrite string_length_app.
  replace (String.length p + String.length rest - String.length p)%nat
    with (String.length rest) by lia.
  clear Hp. induction p as [|c p IH].
  - rewrite string_app_nil_l. apply substring_all.
  - rewrite string_app_cons. simpl. apply IH.
Qed.

Lemma parse_value_literal fuel rest :
  parse_value (S fuel) ("null" +:+ rest) = Some (VNull, rest) /\
  parse_value (S fuel) ("true" +:+ rest) = Some (VBool true, rest) /\
  parse_value (S fuel) ("false" +:+ rest) = Some (VBool false, rest).
Proof.
  repeat split.
  - change (parse_value (S fuel) ("null" +:+ rest))
      with (match strip_literal "null" ("null" +:+ rest) with
            | Some r => Some (VNull, r) | None => None end).
    by rewrite strip_literal_app.
  - change (parse_value (S fuel) ("true" +:+ rest))
      with (match strip_literal "true" ("true" +:+ rest) with
            | Some r => Some (VBool true, r) | None => None end).
    by rewrite strip_literal_app.
  - change (parse_value (S fuel) ("false" +:+ rest))
      with (match strip_literal "false" ("false" +:+ rest) with
            | Some r => Some (VBool false, r) | None => None end).
    by rewrite strip_literal_app.
Qed.

Lemma parse_value_string fuel s rest :
  parse_value (S fuel) (quoteJSONString s +:+ rest) = Some (VStr s, rest).
Proof.
  unfold quoteJSONString. rewrite string_app_cons, string_app_assoc, string_app_cons.
  rewrite string_app_nil_l.
  change (parse_value (S fuel) (String dquote (quote_body s +:+ String dquote rest)))
    with (match parse_chars (quote_body s +:+ String dquote rest) with
          | Some (t, r) => Some (VStr t, r) | None => None end).
  by rewrite parse_chars_quote_body.
Qed.

Lemma parse_value_number fuel z rest :
  ends_number rest = true ->
  parse_value (S fuel) (string_of_Z z +:+ rest) = Some (VNum z, rest).
Proof.
  intros Hrest. rewrite <- (parse_number_Z z rest Hrest).
  destruct (string_of_Z_head z) as (c & t & -> & Hc).
  rewrite string_app_cons. cbn [parse_value].
  assert (Hws : is_ws c = false /\ (N_of_ascii c =? 123)%N = false /\
                (N_of_ascii c =? 91)%N = false /\ (N_of_ascii c =? 34)%N = false /\
                ((N_of_ascii c =? 45)%N || is_digit c) = true).
  { unfold is_ws, is_digit in *. destruct Hc as [->|Hc]; [done|].
    rewrite Hc. apply andb_true_iff in Hc as [H1 H2].
    apply N.leb_le in H1, H2.
    repeat (rewrite (proj2 (N.eqb_neq _ _)) by lia). done. }
  destruct Hws as (Hws & H1 & H2 & H3 & H4).
  cbn [skip_ws]. rewrite Hws. cbv zeta. by rewrite H1, H2, H3, H4.
Qed.

Ltac norm_app :=
  repeat first [ rewrite string_app_assoc | rewrite string_app_cons
               | rewrite string_app_nil_l ].

Lemma parse_elems_S f acc s :
  parse_elems (S f) acc s =
  match parse_value f s with
  | Some (v, r) =>
      match skip_ws r with
      | String c r' =>
          if (N_of_ascii c =? 44)%N then parse_elems f (acc ++ [v])%list r'
          else if (N_of_ascii c =? 93)%N then Some ((acc ++ [v])%list, r')
          else None
      | "" => None
      end
  | None => None
  end.
Proof. reflexivity. Qed.

Lemma parse_members_S f acc r :
  parse_members (S f) acc (String dquote r) =
  match parse_chars r with
  | Some (k, r1) =>
      match skip_ws r1 with
      | String c r2 =>
          if (N_of_ascii c =? 58)%N then
            match parse_value f r2 with
            | Some (v, r3) =>
                match skip_ws r3 with
                | String c' r4 =>
                    if (N_of_ascii c' =? 44)%N
                    then parse_members f (obj_set k v acc) r4
                    else if (N_of_ascii c' =? 125)%N
                    then Some (obj_set k v acc, r4)
                    else None
                | "" => None
                end
            | None => None
            end
          else None
      | "" => None
      end
  | None => None
  end.
Proof. reflexivity. Qed.

Lemma parse_value_array f r :
  parse_value (S f) (String "[" r) =
  match skip_ws r with
  | String c' r' =>
      if (N_of_ascii c' =? 93)%N then Some (VArr [], r')
      else
        match parse_elems f [] r with
        | Some (l, rest) => Some (VArr l, rest)
        | None => None
        end
  | "" => None
  end.
Proof. reflexivity. Qed.

Lemma parse_value_object f r :
  parse_value (S f) (String "{" r) =
  match skip_ws r with
  | String c' r' =>
      if (N_of_ascii c' =? 125)%N then Some (VObj [], r')
      else
        match parse_members f [] r with
        | Some (fs, rest) => Some (VObj fs, rest)
        | None => None
        end
  | "" => None
  end.
Proof. reflexivity. Qed.

Lemma stringify_elems_cons x y l :
  stringify_elems (x :: y :: l) =
  JSON_stringify x +:+ "," +:+ stringify_elems (y :: l).
Proof. reflexivity. Qed.

Lemma stringify_members_cons k x kv fs :
  stringify_members ((k, x) :: kv :: fs) =
  quoteJSONString k +:+ ":" +:+ JSON_stringify x +:+ ","
  +:+ stringify_members (kv :: fs).
Proof. reflexivity. Qed.

Lemma skip_ws_cons c r : is_ws c = false -> skip_ws (String c r) = String c r.
Proof. intros H. simpl. by rewrite H. Qed.

Lemma parse_elems_stringify l :
  Forall parses l ->
  forall acc fuel rest,
    l <> [] -> forallb wf_value l = true ->
    (length l + list_sum (map vsize l) <= fuel)%nat ->
    parse_elems fuel acc (stringify_elems l +:+ String "]" rest) =
    Some ((acc ++ map toJSON l)%list, rest).
Proof.
  induction 1 as [|x l Hx Hl IH]; intros acc fuel rest Hne Hwf Hfuel; [done|].
  simpl in Hwf. apply andb_true_iff in Hwf as [Hwx Hwl].
  simpl in Hfuel. destruct fuel as [|f]; [lia|].
  rewrite parse_elems_S. destruct l as [|y l'].
  - cbn [stringify_elems].
    rewrite (Hx Hwx f (String "]" rest)) by (done || lia).
    reflexivity.
  - rewrite stringify_elems_cons, !string_app_assoc.
    rewrite (Hx Hwx f) by (done || lia).
    rewrite string_app_cons, string_app_nil_l, skip_ws_cons by done.
    change (N_of_ascii "," =? 44)%N with true. cbv iota.
    rewrite IH; [|done|done|simpl in *; lia].
    by rewrite <- app_assoc.
Qed.

Lemma obj_set_fresh k v acc :
  existsb (String.eqb k) (map fst acc) = false ->
  obj_set k v acc = (acc ++ [(k, v)])%list.
Proof.
  induction acc as [|[k' v'] acc IH]; simpl; [done|].
  intros H. apply orb_false_iff in H as [H1 H2].
  rewrite String.eqb_sym, H1. by rewrite IH.
Qed.

Lemma nodup_keys_middle a k b :
  nodup_keys (a ++ k :: b) = true -> existsb (String.eqb k) a = false.
Proof.
  induction a as [|x a IH]; simpl; [done|].
  intros H. apply andb_true_iff in H as [H1 H2].
  rewrite (IH H2), orb_false_r.
  apply negb_true_iff in H1. rewrite existsb_app in H1.
  apply orb_false_iff in H1 as [_ H1]. simpl in H1.
  apply orb_false_iff in H1 as [H1 _]. by rewrite String.eqb_sym.
Qed.

Lemma parse_members_stringify fs :
  Forall (fun kv => parses (snd kv)) fs ->
  forall acc fuel rest,
    fs <> [] ->
    nodup_keys (map fst acc ++ map fst fs) = true ->
    forallb (fun kv => wf_value (snd kv)) fs = true ->
    (length fs + list_sum (map (fun kv => vsize (snd kv)) fs) <= fuel)%nat ->
    parse_members fuel acc (stringify_members fs +:+ String "}" rest) =
    Some ((acc ++ map toJSON_field fs)%list, rest).
Proof.
  induction 1 as [|[k x] fs Hx Hfs IH]; intros acc fuel rest Hne Hnd Hwf Hfuel;
    [done|].
  simpl in Hwf, Hx. apply andb_true_iff in Hwf as [Hwx Hwfs].
  simpl in Hfuel. destruct fuel as [|f]; [lia|].
  simpl in Hnd. pose proof (nodup_keys_middle _ _ _ Hnd) as Hk.
  assert (Hset : forall v, obj_set k v acc = (acc ++ [(k, v)])%list)
    by (intros; by apply obj_set_fresh).
  destruct fs as [|kv fs'].
  - cbn [stringify_members]. unfold quoteJSONString.
    rewrite !string_app_assoc, !string_app_cons, !string_app_assoc,
      !string_app_cons, !string_app_nil_l.
    rewrite parse_members_S, parse_chars_quote_body.
    rewrite skip_ws_cons by done.
    change (N_of_ascii ":" =? 58)%N with true. cbv iota.
    rewrite (Hx Hwx f (String "}" rest)) by (done || lia).
    rewrite skip_ws_cons by done.
    change (N_of_ascii "}" =? 44)%N with false.
    change (N_of_ascii "}" =? 125)%N with true. cbv iota.
    by rewrite Hset.
  - rewrite stringify_members_cons. unfold quoteJSONString at 1.
    rewrite !string_app_assoc, !string_app_cons, !string_app_assoc,
      !string_app_cons, !string_app_nil_l.
    rewrite parse_members_S, parse_chars_quote_body.
    rewrite skip_ws_cons by done.
    change (N_of_ascii ":" =? 58)%N with true. cbv iota.
    rewrite (Hx Hwx f) by (done || lia).
    rewrite skip_ws_cons by done.
    change (N_of_ascii "," =? 44)%N with true. cbv iota.
    rewrite Hset, IH; [|done| |done|simpl in *; lia].
    + by rewrite <- app_assoc.
    + rewrite map_app, <- app_assoc. exact Hnd.
Qed.

(** [JSON.parse] reads back what [JSON.stringify] wrote. *)
Lemma parse_value_stringify v : parses v.
Proof.
  induction v as [|b|z|s|o|l Hl|fs Hfs] using value_ind';
    intros Hwf fuel rest Hfuel Hrest;
    (destruct fuel as [|f]; [simpl in Hfuel; lia|]).
  - apply parse_value_literal.
  - destruct b; apply parse_value_literal.
  - by apply parse_value_number.
  - apply parse_value_string.
  - apply parse_value_string.
  - rewrite stringify_arr. norm_app. rewrite parse_value_array.
    destruct l as [|x l']; [reflexivity|].
    set (l := x :: l') in *.
    assert (Hhead : exists c t,
      stringify_elems l +:+ String "]" rest = String c t /\
      is_ws c = false /\ (N_of_ascii c =? 93)%N = false).
    { destruct (stringify_head x) as (c & t & Hx & Hc).
      subst l. destruct l'; [cbn [stringify_elems]|rewrite stringify_elems_cons];
        rewrite Hx; norm_app; eauto. }
    destruct Hhead as (c & t & Hs & Hws & Hc).
    rewrite Hs, skip_ws_cons, Hc, <- Hs by done.
    rewrite (parse_elems_stringify l Hl); [done|done|done|].
    simpl in Hfuel. subst l. simpl. lia.
  - rewrite stringify_obj. norm_app. rewrite parse_value_object.
    destruct fs as [|[k x] fs']; [reflexivity|].
    set (l := (k, x) :: fs') in *.
    assert (Hhead : exists t,
      stringify_members l +:+ String "}" rest = String dquote t).
    { subst l. destruct fs'; [cbn [stringify_members]|rewrite stringify_members_cons];
        unfold quoteJSONString; norm_app; eauto. }
    destruct Hhead as (t & Hs).
    rewrite Hs, skip_ws_cons by done.
    change (N_of_ascii dquote =? 125)%N with false. cbv iota. rewrite <- Hs.
    simpl in Hwf. apply andb_true_iff in Hwf as [Hnd Hwf].
    rewrite (parse_members_stringify l Hfs); [done|done|done|done|].
    simpl in Hfuel. subst l. simpl. lia.
Qed.

Lemma stringify_nonempty v : (1 <= String.length (JSON_stringify v))%nat.
Proof.
  destruct (stringify_head v) as (c & t & -> & _). simpl. lia.
Qed.

Lemma vsize_elems l :
  Forall (fun v => (vsize v <= 2 * String.length (JSON_stringify v))%nat) l ->
  (length l + list_sum (map vsize l) <= 2 * String.length (stringify_elems l) + 1)%nat.
Proof.
  induction 1 as [|x l Hx Hl IH]; [simpl; lia|].
  destruct l as [|y l'].
  - cbn [stringify_elems]. simpl. lia.
  - rewrite stringify_elems_cons, !string_length_app.
    change (length (x :: y :: l') + list_sum (map vsize (x :: y :: l')))%nat
      with (S (length (y :: l')) + (vsize x + list_sum (map vsize (y :: l'))))%nat.
    change (String.length ",") with 1%nat. lia.
Qed.

Lemma vsize_members fs :
  Forall (fun kv => (vsize (snd kv) <= 2 * String.length (JSON_stringify (snd kv)))%nat) fs ->
  (length fs + list_sum (map (fun kv => vsize (snd kv)) fs)
   <= 2 * String.length (stringify_members fs) + 1)%nat.
Proof.
  induction 1 as [|[k x] fs Hx Hfs IH]; [simpl; lia|].
  cbn [snd] in Hx. destruct fs as [|kv fs'].
  - cbn [stringify_members]. rewrite !string_length_app.
    change (length [(k, x)] + list_sum (map (fun kv => vsize (snd kv)) [(k, x)]))%nat
      with (1 + (vsize x + 0))%nat.
    change (String.length ":") with 1%nat. lia.
  - rewrite stringify_members_cons, !string_length_app.
    change (length ((k, x) :: kv :: fs') +
            list_sum (map (fun kv => vsize (snd kv)) ((k, x) :: kv :: fs')))%nat
      with (S (length (kv :: fs')) +
            (vsize x + list_sum (map (fun kv => vsize (snd kv)) (kv :: fs'))))%nat.
    change (String.length ":") with 1%nat.
    change (String.length ",") with 1%nat. lia.
Qed.

Lemma vsize_bound v : (vsize v <= 2 * String.length (JSON_stringify v))%nat.
Proof.
  induction v as [|b|z|s|o|l Hl|fs Hfs] using value_ind'.
  - generalize (stringify_nonempty VNull).
    generalize (String.length (JSON_stringify VNull)). cbn [vsize]. lia.
  - generalize (stringify_nonempty (VBool b)).
    generalize (String.length (JSON_stringify (VBool b))). cbn [vsize]. lia.
  - generalize (stringify_nonempty (VNum z)).
    generalize (String.length (JSON_stringify (VNum z))). cbn [vsize]. lia.
  - generalize (stringify_nonempty (VStr s)).
    generalize (String.length (JSON_stringify (VStr s))). cbn [vsize]. lia.
  - generalize (stringify_nonempty (VOid o)).
    generalize (String.length (JSON_stringify (VOid o))). cbn [vsize]. lia.
  - rewrite stringify_arr, !string_length_app.
    generalize (vsize_elems l Hl).
    generalize (String.length (stringify_elems l)).
    change (String.length "[") with 1%nat. change (String.length "]") with 1%nat.
    cbn [vsize]. lia.
  - rewrite stringify_obj, !string_length_app.
    generalize (vsize_members fs Hfs).
    generalize (String.length (stringify_members fs)).
    change (String.length "{") with 1%nat. change (String.length "}") with 1%nat.
    cbn [vsize]. lia.
Qed.

(** [JSON.parse(JSON.stringify(v))] is [v] as it travels on the wire. *)
Lemma JSON_parse_stringify v :
  wf_value v = true -> JSON_parse (JSON_stringify v) = Some (toJSON v).
Proof.
  intros Hwf. unfold JSON_parse.
  pose proof (parse_value_stringify v Hwf
                (2 * String.length (JSON_stringify v) + 2)%nat "") as H.
  rewrite string_app_nil_r in H. rewrite H; [done| |done].
  pose proof (vsize_bound v). lia.
Qed.

Lemma stringify_elems_ext (f : value -> value) l :
  Forall (fun v => JSON_stringify (f v) = JSON_stringify v) l ->
  stringify_elems (map f l) = stringify_elems l.
Proof.
  induction 1 as [|x l Hx Hl IH]; [done|].
  destruct l as [|y l']; [exact Hx|].
  cbn [map] in *. rewrite !stringify_elems_cons. by rewrite Hx, IH.
Qed.

Lemma stringify_members_toJSON fs :
  Forall (fun kv => JSON_stringify (toJSON (snd kv)) = JSON_stringify (snd kv)) fs ->
  stringify_members (map (fun kv => (fst kv, toJSON (snd kv))) fs) =
  stringify_members fs.
Proof.
  induction 1 as [|[k x] fs Hx Hfs IH]; [done|].
  destruct fs as [|[k' y] fs'].
  - cbn [map stringify_members fst snd] in *. by rewrite Hx.
  - cbn [map fst snd] in *. rewrite !stringify_members_cons. by rewrite Hx, IH.
Qed.

(** The text of a value and of its wire form are the same. *)
Lemma stringify_toJSON v : JSON_stringify (toJSON v) = JSON_stringify v.
Proof.
  induction v as [|b|z|s|o|l Hl|fs Hfs] using value_ind'; try reflexivity.
  - cbn [toJSON]. rewrite !stringify_arr. by rewrite stringify_elems_ext.
  - cbn [toJSON]. rewrite !stringify_obj. by rewrite stringify_members_toJSON.
Qed.

Lemma truthy_toJSON_obj fs : truthy (toJSON (VObj fs)) = true.
Proof. reflexivity. Qed.


(** ** The adapters, one call at a time *)

Lemma calls_called w l c s n g fs t co :
  calls w (World c s n g fs (oplog w ++ l) t co) = l.
Proof. unfold calls. simpl. by rewrite drop_app_length. Qed.

Lemma calls_refl w : calls w w = [].
Proof. unfold calls. by rewrite drop_all. Qed.

Lemma obj_get_set k v o : obj_get k (obj_set k v o) = Some v.
Proof.
  induction o as [|[k' v'] o IH]; simpl.
  - by rewrite String.eqb_refl.
  - destruct (String.eqb k' k) eqn:E; simpl; by rewrite E.
Qed.

Ltac unfold_monad :=
  unfold bind, ret, throw, gets, modify, try_catch, adapter_call, called,
    set_cache, set_store, set_oid_next, set_timers, set_console in *.

Ltac crunch := repeat (case_match; simplify_eq/=).

(** What an insert leaves alone and what it changes. *)
Lemma insertOne_frame doc w r w' :
  insertOne doc w = (r, w') ->
  cache w' = cache w /\ timers w' = timers w /\ console w' = console w /\
  now w' = now w /\
  (exists d, calls w w' = [MongoInsert d]) /\
  match r with
  | Thrown _ => store w' = store w
  | Returned (insertedId, d) =>
      store w' = (store w ++ [d])%list /\ obj_get "_id" d = Some insertedId /\
      existsb (has_id insertedId) (store w) = false
  end.
Proof.
  unfold insertOne, new_ObjectId. unfold_monad.
  intros H. crunch; rewrite ?calls_called, ?obj_get_set; eauto 10.
Qed.

Lemma setCacheJSON_frame k v ttl w r w' :
  setCacheJSON k v ttl w = (r, w') ->
  store w' = store w /\ timers w' = timers w /\ console w' = console w /\
  now w' = now w /\ oid_next w' = oid_next w /\
  (exists ex, calls w w' = [RedisSet k (JSON_stringify v) ex]).
Proof.
  unfold setCacheJSON, redis_set. unfold_monad.
  intros H. crunch; rewrite ?calls_called; eauto 10.
Qed.

Lemma healthy_next w : healthy w -> next_rejects w = false.
Proof.
  unfold healthy, next_rejects. destruct (faults w); [done|].
  intros H. by inversion H.
Qed.

Lemma healthy_called o w : healthy w -> healthy (called o w).
Proof.
  unfold healthy, called. simpl. destruct (faults w); [done|].
  intros H. by inversion H.
Qed.

Lemma adapter_call_run o w :
  adapter_call o w =
  (if next_rejects w then Thrown unavailable else Returned tt, called o w).
Proof. unfold adapter_call, next_rejects. by destruct (faults w) as [|[] ?]. Qed.

Lemma getCacheJSON_run k w :
  getCacheJSON k w =
  (if next_rejects w then Thrown unavailable else cached w k,
   called (RedisGet k) w).
Proof.
  unfold getCacheJSON, redis_get, bind, gets. rewrite adapter_call_run.
  by destruct (next_rejects w).
Qed.

Lemma getFromMongo_run id w :
  getFromMongo id w =
  match oid_of_string id with
  | Some o =>
      let w1 := called (MongoFindById o) w in
      if next_rejects w then
        (if next_rejects w1 then Thrown unavailable
         else Returned (doc_or_null (List.find (has_sensor id) (store w))),
         called (MongoFindBySensor id) w1)
      else (Returned (doc_or_null (List.find (has_oid o) (store w))), w1)
  | None =>
      (if next_rejects w then Thrown unavailable
       else Returned (doc_or_null (List.find (has_sensor id) (store w))),
       called (MongoFindBySensor id) w)
  end.
Proof.
  unfold getFromMongo, ObjectId_from, findOne_by_id, findOne_by_sensor,
    bind, try_catch, gets, ret, throw.
  destruct (oid_of_string id) as [o|]; rewrite !adapter_call_run.
  - destruct (next_rejects w); [|done].
    rewrite adapter_call_run. by destruct (next_rejects _).
  - by destruct (next_rejects w).
Qed.

Lemma setCacheJSON_run k v ttl w :
  setCacheJSON k v ttl w =
  let text := JSON_stringify v in
  let ex := match ttl with Some n => if n =? 0 then None else Some n | None => None end in
  let w1 := called (RedisSet k text ex) w in
  if next_rejects w then (Thrown unavailable, w1)
  else
    match ex with
    | None => (Returned tt, set_cache (insert k (Entry text None)) w1)
    | Some n =>
        if n <=? 0 then (Thrown invalid_expire, w1)
        else (Returned tt, set_cache (insert k (Entry text (Some (now w + n)))) w1)
    end.
Proof.
  unfold setCacheJSON, redis_set, bind, modify, throw.
  destruct ttl as [n|]; [destruct (n =? 0)|]; rewrite adapter_call_run;
    destruct (next_rejects w); try done.
  by destruct (n <=? 0).
Qed.

Lemma redis_ttl_run k w :
  redis_ttl k w =
  (if next_rejects w then Thrown unavailable
   else Returned
          match redis_lookup w k with
          | None => -2
          | Some e =>
              match expireAt e with
              | None => -1
              | Some deadline => deadline - now w
              end
          end,
   called (RedisTtl k) w).
Proof.
  unfold redis_ttl, bind, gets. rewrite adapter_call_run.
  by destruct (next_rejects w).
Qed.

Ltac norm_calls :=
  unfold calls, called, set_cache; simpl;
  repeat rewrite <- app_assoc; rewrite ?drop_app_length, ?drop_all; simpl.

Ltac run_step :=
  first [ rewrite getCacheJSON_run in * | rewrite getFromMongo_run in *
        | rewrite setCacheJSON_run in * | rewrite redis_ttl_run in * | case_match ];
  cbv zeta in *; simplify_eq/=.

Lemma healthy_set_cache f w : healthy w -> healthy (set_cache f w).
Proof. done. Qed.

Lemma getFromMongo_healthy id w :
  next_rejects w = false ->
  getFromMongo id w =
  (Returned (doc_or_null (store_lookup id (store w))), called (lookup_op id) w).
Proof.
  intros H. rewrite getFromMongo_run. unfold store_lookup, lookup_op.
  destruct (oid_of_string id); cbv zeta; by rewrite H.
Qed.

Lemma redis_lookup_insert k e w :
  live (now w) e = true -> redis_lookup (set_cache (insert k e) w) k = Some e.
Proof.
  intros H. unfold redis_lookup. simpl. by rewrite lookup_insert_eq, H.
Qed.

Lemma healthy_set_oid_next n w : healthy w -> healthy (set_oid_next n w).
Proof. done. Qed.
Lemma healthy_set_store f w : healthy w -> healthy (set_store f w).
Proof. done. Qed.
Create HintDb healthy.
#[local] Hint Resolve healthy_called healthy_set_cache healthy_next
  healthy_set_oid_next healthy_set_store : healthy.

Lemma obj_get_del k o : obj_get k (obj_del k o) = None.
Proof.
  induction o as [|[k' v] o IH]; [done|]. simpl.
  destruct (String.eqb k' k) eqn:E; [done|]. simpl. by rewrite E.
Qed.

Lemma insertOne_fresh doc w :
  obj_get "_id" doc = None ->
  insertOne doc w =
  let o := oid_next w in
  let d := obj_set "_id" (VOid o) doc in
  let w1 := called (MongoInsert d) (set_oid_next (o + 1) w) in
  if next_rejects w then (Thrown unavailable, w1)
  else if existsb (has_id (VOid o)) (store w) then (Thrown duplicate_key, w1)
  else (Returned (VOid o, d), set_store (fun s => s ++ [d])%list w1).
Proof.
  intros H. unfold insertOne, new_ObjectId, bind, ret, gets, modify, throw.
  rewrite H, adapter_call_run. cbv zeta.
  change (next_rejects (set_oid_next _ w)) with (next_rejects w).
  destruct (next_rejects w); [done|].
  cbn [store called set_oid_next]. by destruct (existsb _ _).
Qed.

Lemma redis_del_run k w :
  redis_del k w =
  (if next_rejects w then (Thrown unavailable, called (RedisDel k) w)
   else (Returned tt, set_cache (delete k) (called (RedisDel k) w))).
Proof.
  unfold redis_del, bind, modify. rewrite adapter_call_run.
  by destruct (next_rejects w).
Qed.

Lemma flush_never_throws t w : fst (flush t w) = Returned tt.
Proof.
  unfold flush, try_catch, bind, console_log, modify.
  repeat (case_match; simplify_eq/=); done.
Qed.

Lemma flush_insert_fails t w e w1 :
  insertOne (obj_del "_id" (ft_doc t)) w = (Thrown e, w1) ->
  flush t w =
  (Returned tt,
   set_console (fun c => c ++ ["write-behind flush failed: " +:+ e])%list w1).
Proof.
  intros H. unfold flush, try_catch, bind, console_log, modify. by rewrite H.
Qed.

Lemma key_oid_ne a b :
  (a < 2 ^ 96)%N -> (b < 2 ^ 96)%N -> a <> b ->
  key (oid_toString a) <> key (oid_toString b).
Proof.
  intros Ha Hb Hne Hk. apply key_inj, oid_toString_inj in Hk; done.
Qed.

Lemma find_app_fresh {A} (f : A -> bool) l x :
  existsb f l = false -> f x = true -> List.find f (l ++ [x])%list = Some x.
Proof.
  induction l as [|y l IH]; simpl.
  - intros _ ->. done.
  - destruct (f y); [done|]. simpl. auto.
Qed.

Lemma has_oid_has_id o d : has_oid o d = has_id (VOid o) d.
Proof.
  unfold has_oid, has_id. destruct (obj_get "_id" d) as [[]|]; try done.
Qed.

Lemma existsb_has_oid o l :
  existsb (has_oid o) l = existsb (has_id (VOid o)) l.
Proof. induction l as [|d l IH]; simpl; [done|]. by rewrite IH, has_oid_has_id. Qed.

Lemma obj_del_set k v o : obj_del k (obj_set k v o) = obj_del k o.
Proof.
  induction o as [|[k' v'] o IH]; simpl.
  - by rewrite String.eqb_refl.
  - destruct (String.eqb k' k) eqn:E; simpl; rewrite E; [done|]. by rewrite IH.
Qed.

Lemma obj_del_idemp k o : obj_del k (obj_del k o) = obj_del k o.
Proof.
  induction o as [|[k' v'] o IH]; simpl; [done|].
  destruct (String.eqb k' k) eqn:E; simpl; [done|]. by rewrite E, IH.
Qed.

Lemma cached_populated k v ex w :
  wf_value v = true ->
  live (now w) (Entry (JSON_stringify v) ex) = true ->
  cached (set_cache (insert k (Entry (JSON_stringify v) ex)) w) k =
  Returned (toJSON v).
Proof.
  intros Hwf Hlive. unfold cached. rewrite redis_lookup_insert by done.
  simpl. rewrite JSON_parse_stringify by done.
  destruct (stringify_head v) as (c & t & -> & _). done.
Qed.

(** ** The generator only moves forward *)

Lemma forward_ret {A} (a : A) : forward (ret a).
Proof. intros w r w' [= <- <-]. lia. Qed.

Lemma forward_throw {A} e : forward (@throw A e).
Proof. intros w r w' [= <- <-]. lia. Qed.

Lemma forward_bind {A B} (m : M A) (k : A -> M B) :
  forward m -> (forall a, forward (k a)) -> forward (bind m k).
Proof.
  intros Hm Hk w r w' H. unfold bind in H.
  destruct (m w) as [[a|e] w1] eqn:E; apply Hm in E.
  - apply Hk in H. lia.
  - injection H as <- <-. lia.
Qed.

Lemma forward_try_catch {A} (m : M A) h :
  forward m -> (forall e, forward (h e)) -> forward (try_catch m h).
Proof.
  intros Hm Hh w r w' H. unfold try_catch in H.
  destruct (m w) as [[a|e] w1] eqn:E; apply Hm in E.
  - injection H as <- <-. lia.
  - apply Hh in H. lia.
Qed.

Lemma forward_adapter_call o : forward (adapter_call o).
Proof. intros w r w'. rewrite adapter_call_run. intros [= <- <-]. simpl. lia. Qed.

Lemma forward_gets {A} (f : world -> A) : forward (gets f).
Proof. intros w r w' [= <- <-]. lia. Qed.

Lemma forward_modify f :
  (forall w, oid_next (f w) = oid_next w) -> forward (modify f).
Proof. intros Hf w r w' [= <- <-]. rewrite Hf. lia. Qed.

Lemma forward_new_ObjectId : forward new_ObjectId.
Proof. intros w r w' [= <- <-]. simpl. lia. Qed.

Lemma forward_if {A} (b : bool) (m1 m2 : M A) :
  forward m1 -> forward m2 -> forward (if b then m1 else m2).
Proof. by destruct b. Qed.

Create HintDb forward.
#[local] Hint Resolve forward_ret forward_throw forward_adapter_call forward_gets
  forward_new_ObjectId forward_if : forward.

Ltac forward_tac :=
  repeat first
    [ progress auto with forward
    | apply forward_bind; [|intros ?]
    | apply forward_try_catch; [|intros ?]
    | apply forward_modify; intros; reflexivity
    | match goal with |- forward (match ?x with _ => _ end) => destruct x end
    | match goal with |- forward (fun w => (?x, w)) => intros ? ? ? [= <- <-]; lia end ].

Lemma forward_insertOne doc : forward (insertOne doc).
Proof. unfold insertOne. forward_tac. Qed.

Lemma forward_setCacheJSON k v ttl : forward (setCacheJSON k v ttl).
Proof. unfold setCacheJSON, redis_set. forward_tac. Qed.

Lemma forward_getCacheJSON k : forward (getCacheJSON k).
Proof. unfold getCacheJSON, redis_get. forward_tac. Qed.

Lemma forward_getFromMongo id : forward (getFromMongo id).
Proof.
  unfold getFromMongo, ObjectId_from, findOne_by_id, findOne_by_sensor.
  forward_tac.
Qed.

Lemma forward_flush t : forward (flush t).
Proof.
  unfold flush, redis_del, console_log.
  pose proof forward_insertOne. pose proof forward_setCacheJSON.
  forward_tac.
Qed.

#[local] Hint Resolve forward_insertOne forward_setCacheJSON forward_getCacheJSON
  forward_getFromMongo forward_flush : forward.

Lemma forward_handler (m : M response) w :
  forward m -> (oid_next w <= oid_next (snd (handler m w)))%N.
Proof.
  intros H. unfold handler. destruct (m w) as [[r|e] w'] eqn:E; apply H in E; done.
Qed.

Lemma step_forward w w' : step w w' -> (oid_next w <= oid_next w')%N.
Proof.
  destruct 1; try (simpl; lia).
  - apply forward_handler. forward_tac.
  - apply forward_handler. forward_tac.
  - apply forward_handler. forward_tac.
  - apply forward_handler. unfold setTimeout. forward_tac.
  - apply forward_handler. unfold redis_ttl. forward_tac.
  - unfold health, bind, ret. rewrite !adapter_call_run.
    destruct (next_rejects w); [simpl; lia|].
    destruct (next_rejects _); simpl; lia.
  - apply forward_handler. unfold redis_del. forward_tac.
  - unfold fire. destruct (timers w) as [|t ts]; [lia|].
    destruct (flush t _) as [r w'] eqn:E. apply forward_flush in E. exact E.
Qed.

Lemma steps_forward w w' : rtc step w w' -> (oid_next w <= oid_next w')%N.
Proof.
  induction 1 as [|w w1 w2 H _ IH]; [lia|]. apply step_forward in H. lia.
Qed.

(** * The claims *)

(** C1.  Write-through: when the insert into the collection throws, the
    handler answers 500 with that error, the cache is as before and no Redis
    call was made; when the insert returns and the cache populate throws,
    the handler answers 500 with that error and the inserted document is in
    the collection; an answer of status 201 means that the insert and the
    populate both returned, and it carries the document that is now in the
    collection and, as text, in the cache. *)
Theorem write_through_failure_semantics (req_body : option document) (w : world) :
  let body := body_or_empty req_body in
  (forall e w1,
      insertOne body w = (Thrown e, w1) ->
      write_through req_body w = (Response 500 (error_body e), w1) /\
      cache w1 = cache w /\ List.filter is_redis_op (calls w w1) = []) /\
  (forall insertedId body' w1 e w2,
      insertOne body w = (Returned (insertedId, body'), w1) ->
      setCacheJSON (key (value_toString insertedId))
        (VObj (spread [("_id", insertedId)] body')) None w1 = (Thrown e, w2) ->
      write_through req_body w = (Response 500 (error_body e), w2) /\
      In body' (store w2)) /\
  (forall r w2,
      write_through req_body w = (r, w2) -> status r = 201 ->
      exists insertedId body' w1,
        let doc := VObj (spread [("_id", insertedId)] body') in
        let k := key (value_toString insertedId) in
        insertOne body w = (Returned (insertedId, body'), w1) /\
        setCacheJSON k doc None w1 = (Returned tt, w2) /\
        r = Response 201 (VObj [("strategy", VStr "write-through"); ("doc", doc)]) /\
        In body' (store w2) /\
        cache w2 !! k = Some (Entry (JSON_stringify doc) None)).
Proof.
  intros body. repeat split.
  - unfold write_through, handler, bind. fold body. by rewrite H.
  - by apply insertOne_frame in H as (-> & _).
  - apply insertOne_frame in H as (_ & _ & _ & _ & [d ->] & _). done.
  - unfold write_through, handler, bind. fold body. by rewrite H, H0.
  - apply setCacheJSON_frame in H0 as (-> & _).
    apply insertOne_frame in H as (_ & _ & _ & _ & _ & -> & _).
    apply in_or_app. right. by left.
  - intros r w2 Hrun Hst.
    unfold write_through, handler, bind in Hrun. fold body in Hrun.
    destruct (insertOne body w) as [[[insertedId body']|e] w1] eqn:Hins;
      [|by injection Hrun as <- <-].
    destruct (setCacheJSON _ _ None w1) as [[[]|e] w2'] eqn:Hset;
      injection Hrun as <- <-; [|done].
    exists insertedId, body', w1. repeat split; try done.
    + pose proof Hset as Hfr. apply setCacheJSON_frame in Hfr as (-> & _).
      apply insertOne_frame in Hins as (_ & _ & _ & _ & _ & -> & _).
      apply in_or_app. right. by left.
    + revert Hset. unfold setCacheJSON, redis_set. unfold_monad.
      intros; crunch; apply lookup_insert_eq.
Qed.

Lemma write_through_failure_semantics_witness :
  (write_through (Some reading_s1) w_first_call_rejects =
     (Response 500 (error_body unavailable), called (MongoInsert (obj_set "_id" (VOid 0) reading_s1)) (set_oid_next 1 w_first_call_rejects)) /\
   cache (snd (write_through (Some reading_s1) w_first_call_rejects)) = ∅) /\
  (status (fst (write_through (Some reading_s1) w_second_call_rejects)) = 500 /\
   In (obj_set "_id" (VOid 0) reading_s1) (store (snd (write_through (Some reading_s1) w_second_call_rejects)))) /\
  (exists k text, cache (snd (write_through (Some reading_s1) empty_world)) !! k = Some (Entry text None)).
Proof.
  pose proof (write_through_failure_semantics (Some reading_s1) w_first_call_rejects) as (H1 & _ & _).
  pose proof (write_through_failure_semantics (Some reading_s1) w_second_call_rejects) as (_ & H2 & _).
  pose proof (write_through_failure_semantics (Some reading_s1) empty_world) as (_ & _ & H3).
  split; [|split].
  - edestruct H1 as (-> & Hc & _); [reflexivity|]. split; [reflexivity|]. simpl. exact Hc.
  - edestruct H2 as (-> & Hin); [reflexivity|reflexivity|]. split; [reflexivity|exact Hin].
  - edestruct H3 as (id & b & w1 & _ & _ & _ & _ & Hc); [reflexivity|reflexivity|].
    eexists _, _. exact Hc.
Defined.

(** C2, as the code has it.  A cache-aside read never writes to the
    collection, and on a warm key it makes no call on the collection at all.
    It makes one lookup when that lookup returns; when the lookup by
    [_id] throws, the bare [catch] of [getFromMongo] makes a second lookup,
    by [sensorId]: two lookups at most.  The first lookup is the second
    adapter call of the handler, after [redis.get]. *)
Theorem cache_aside_store_access (id : string) (w : world) :
  let r := fst (cache_aside id w) in
  let w' := snd (cache_aside id w) in
  let ops := calls w w' in
  store w' = store w /\
  List.filter is_mongo_write ops = [] /\
  (length (List.filter is_mongo_lookup ops) <= 2)%nat /\
  (nth 1 (faults w) false = false ->
   (length (List.filter is_mongo_lookup ops) <= 1)%nat) /\
  (field "warm" (body r) = Some (VBool true) ->
   List.filter is_mongo_op ops = []).
Proof.
  destruct (cache_aside id w) as [r w'] eqn:Hrun. cbv zeta. simpl fst; simpl snd.
  revert Hrun. unfold cache_aside, handler, bind, ret.
  repeat run_step.
  all: intros; simplify_eq/=.
  all: norm_calls; repeat split; try done; try lia.
  all: try (intros [= Hw]; rewrite Hw in *; done).
  all: unfold next_rejects, called in *; simpl in *;
    destruct (faults w) as [|? [|? ?]]; simpl in *; congruence.
Qed.

(** C2 fails as stated: the lookup by [_id] rejects and a second lookup
    follows. *)
Lemma cache_aside_two_lookups :
  ~ (length (List.filter is_mongo_lookup
       (calls w_second_call_rejects
          (snd (cache_aside "000000000000000000000000" w_second_call_rejects)))) <= 1)%nat.
Proof. vm_compute. lia. Qed.

Lemma cache_aside_store_access_witness :
  (length (List.filter is_mongo_lookup
     (calls w_one_reading (snd (cache_aside "s1" w_one_reading)))) <= 1)%nat /\
  List.filter is_mongo_op
    (calls (snd (cache_aside "s1" w_one_reading))
       (snd (cache_aside "s1" (snd (cache_aside "s1" w_one_reading))))) = [].
Proof.
  split.
  - apply (cache_aside_store_access "s1" w_one_reading). reflexivity.
  - apply (cache_aside_store_access "s1" (snd (cache_aside "s1" w_one_reading))).
    reflexivity.
Defined.





(** C4.  Write-behind, when the insert of the flush throws.  The caller
    has its answer of status 202 with [queued: true] before the timer
    fires; the entry under the provisional key has no expiration.  In
    whatever world the flush then runs, if its insert throws, the callback
    returns normally: nothing is thrown to anyone, the error goes to the
    console, the cache is not touched (the provisional entry is not rolled
    back), the collection is as before, no timer is set again and the
    insert was attempted once. *)
Theorem flush_failure_is_silent (req_body : option document) (w : world)
    (r : response) (w1 : world) :
  write_behind req_body w = (r, w1) ->
  status r = 202 ->
  exists t,
    let k := key (oid_toString (ft_tempId t)) in
    let provisional := Entry (JSON_stringify (VObj (ft_doc t))) None in
    timers w1 = (timers w ++ [t])%list /\
    field "queued" (body r) = Some (VBool true) /\
    (forall dt, redis_lookup (elapse dt w1) k = Some provisional) /\
    forall w2 e w3,
      insertOne (obj_del "_id" (ft_doc t)) w2 = (Thrown e, w3) ->
      let w4 := snd (flush t w2) in
      fst (flush t w2) = Returned tt /\
      cache w4 = cache w2 /\ store w4 = store w2 /\ timers w4 = timers w2 /\
      console w4 = (console w2 ++ ["write-behind flush failed: " +:+ e])%list /\
      (exists d, calls w2 w4 = [MongoInsert d]).
Proof.
  intros Hrun Hst.
  unfold write_behind, handler, bind, new_ObjectId, ret, setTimeout, modify in Hrun.
  rewrite setCacheJSON_run in Hrun. cbv zeta in Hrun.
  change (next_rejects (set_oid_next _ w)) with (next_rejects w) in Hrun.
  destruct (next_rejects w); simplify_eq/=.
  set (t := FlushTask (spread [("_id", VOid (oid_next w))] (body_or_empty req_body))
              (oid_next w)).
  exists t. cbv zeta. split; [done|]. split; [done|]. split.
  - intros dt. unfold redis_lookup. simpl. by rewrite lookup_insert_eq.
  - intros w2 e w3 H. split; [apply flush_never_throws|].
    rewrite (flush_insert_fails t w2 e w3 H). simpl.
    apply insertOne_frame in H as (-> & -> & -> & _ & Hd & ->). done.
Qed.

Lemma flush_failure_is_silent_witness :
  let w1 := snd (write_behind (Some reading_s1) empty_world) in
  let t := FlushTask (spread [("_id", VOid 0)] reading_s1) 0 in
  let w2 := set_faults [true] w1 in
  timers w1 = [t] /\
  fst (flush t w2) = Returned tt /\
  cache (snd (flush t w2)) = cache w2 /\
  store (snd (flush t w2)) = [] /\
  timers (snd (flush t w2)) = [t] /\
  console (snd (flush t w2)) = ["write-behind flush failed: adapter unavailable"].
Proof.
  intros w1 t w2.
  destruct (flush_failure_is_silent (Some reading_s1) empty_world _ _
              eq_refl eq_refl) as (t' & Ht & _ & _ & Hflush).
  assert (t' = t) as -> by (injection Ht as <-; reflexivity).
  destruct (Hflush w2 unavailable _ eq_refl) as (H1 & H2 & H3 & H4 & H5 & _).
  split; [reflexivity|]. split; [exact H1|]. split; [exact H2|].
  split; [exact H3|]. split; [exact H4|exact H5].
Defined.

(** C5.  Write-behind.  When the cache populate returns, the handler
    answers 202 with [queued: true] and the provisional document, the cache
    holds its text under the provisional key, and the flush is scheduled.
    When the flush then runs without a rejected call, in a world whose
    generator is past the provisional identifier and gives an identifier
    that the collection does not hold, the document without its [_id] is in
    the collection under that real identifier and is found by it, the
    provisional key is gone from the cache, and the real key holds the text
    of the persisted document. *)
Theorem write_behind_then_flush (req_body : option document) (w : world) :
  next_rejects w = false ->
  let tempId := oid_next w in
  let doc := spread [("_id", VOid tempId)] (body_or_empty req_body) in
  let t := FlushTask doc tempId in
  exists w1,
    write_behind req_body w =
      (Response 202
         (VObj [("strategy", VStr "write-behind"); ("queued", VBool true);
                ("doc", VObj doc)]), w1) /\
    cache w1 !! key (oid_toString tempId) =
      Some (Entry (JSON_stringify (VObj doc)) None) /\
    timers w1 = (timers w ++ [t])%list /\
    store w1 = store w /\
    forall w2,
      healthy w2 ->
      (tempId < oid_next w2 < 2 ^ 96)%N ->
      existsb (has_id (VOid (oid_next w2))) (store w2) = false ->
      let realId := oid_next w2 in
      let stored := obj_set "_id" (VOid realId) (obj_del "_id" doc) in
      let persisted := VObj (spread [("_id", VOid realId)] stored) in
      let w3 := snd (flush t w2) in
      store w3 = (store w2 ++ [stored])%list /\
      obj_del "_id" stored = obj_del "_id" doc /\
      store_lookup (oid_toString realId) (store w3) = Some stored /\
      cache w3 !! key (oid_toString tempId) = None /\
      cache w3 !! key (oid_toString realId) =
        Some (Entry (JSON_stringify persisted) None) /\
      console w3 =
        (console w2 ++ ["write-behind persisted: " +:+ oid_toString realId])%list.
Proof.
  intros Hok tempId doc t.
  eexists. split.
  { unfold write_behind, handler, bind, new_ObjectId, ret, setTimeout, modify.
    rewrite setCacheJSON_run. cbv zeta.
    change (next_rejects (set_oid_next _ w)) with (next_rejects w).
    rewrite Hok. reflexivity. }
  split; [apply lookup_insert_eq|]. split; [done|]. split; [done|].
  intros w2 Hw2 [Hlt Hbound] Hfresh realId stored persisted w3.
  subst w3. unfold flush, try_catch, bind, console_log, modify.
  cbn [ft_doc ft_tempId t].
  rewrite insertOne_fresh by apply obj_get_del. cbv zeta.
  rewrite healthy_next, Hfresh by done.
  rewrite redis_del_run, healthy_next by auto with healthy.
  rewrite setCacheJSON_run. cbv zeta.
  rewrite healthy_next by auto 10 with healthy.
  simpl. fold realId. fold stored.
  split; [done|]. split.
  { subst stored. by rewrite obj_del_set, obj_del_idemp. }
  split.
  { unfold store_lookup. rewrite oid_of_string_toString by done.
    apply find_app_fresh.
    - by rewrite existsb_has_oid.
    - unfold has_oid. subst stored. rewrite obj_get_set. apply N.eqb_refl. }
  split.
  { rewrite lookup_insert_ne, lookup_delete_eq; [done|].
    apply key_oid_ne; [done|lia|lia]. }
  split; [apply lookup_insert_eq|done].
Qed.

Lemma write_behind_then_flush_witness :
  let w1 := snd (write_behind (Some reading_s1) empty_world) in
  let w3 := fire w1 in
  status (fst (write_behind (Some reading_s1) empty_world)) = 202 /\
  store w3 = [obj_set "_id" (VOid 1) reading_s1] /\
  store_lookup (oid_toString 1) (store w3) = Some (obj_set "_id" (VOid 1) reading_s1) /\
  cache w3 !! key (oid_toString 0) = None /\
  payload <$> cache w3 !! key (oid_toString 1) =
    Some (JSON_stringify (VObj (("_id", VOid 1) :: reading_s1))).
Proof.
  intros w1 w3.
  destruct (write_behind_then_flush (Some reading_s1) empty_world eq_refl)
    as (w1' & Hr & _ & _ & _ & Hflush).
  assert (w1' = w1) as -> by (apply (f_equal snd) in Hr; symmetry; exact Hr).
  destruct (Hflush (set_timers (fun _ => []) w1)) as (H1 & _ & H3 & H4 & H5 & _).
  - constructor.
  - simpl. lia.
  - reflexivity.
  - split; [reflexivity|]. split; [exact H1|]. split; [exact H3|].
    split; [exact H4|]. exact (f_equal (fmap payload) H5).
Defined.

(** C6, as the code has it.  The provisional identifier is [new ObjectId()]:
    the next identifier of the same generator from which the driver gives
    an [_id] to a document inserted without one, so that an insert made in
    the same world would be given that very identifier.  What keeps the two
    apart is only that the generator moves forward: in every world the
    server reaches after the call, a document inserted without an [_id]
    gets an identifier other than the provisional one. *)
Theorem provisional_id_from_store_generator (req_body : option document) (w : world) :
  let tempId := oid_next w in
  let doc := spread [("_id", VOid tempId)] (body_or_empty req_body) in
  let w1 := snd (write_behind req_body w) in
  (timers w1 = timers w \/ timers w1 = (timers w ++ [FlushTask doc tempId])%list) /\
  (forall d insertedId d' w',
      obj_get "_id" d = None ->
      insertOne d w = (Returned (insertedId, d'), w') ->
      insertedId = VOid tempId) /\
  (forall w2 d insertedId d' w3,
      rtc step w1 w2 ->
      obj_get "_id" d = None ->
      insertOne d w2 = (Returned (insertedId, d'), w3) ->
      insertedId <> VOid tempId).
Proof.
  intros tempId doc w1. split; [|split].
  - subst w1. unfold write_behind, handler, bind, new_ObjectId, ret, setTimeout, modify.
    rewrite setCacheJSON_run. cbv zeta.
    destruct (next_rejects _); simpl; auto.
  - intros d insertedId d' w' Hd H. rewrite insertOne_fresh in H by done.
    cbv zeta in H. repeat case_match; by simplify_eq.
  - intros w2 d insertedId d' w3 Hsteps Hd H.
    apply steps_forward in Hsteps.
    assert (Hw1 : (tempId < oid_next w1)%N).
    { subst w1. unfold write_behind, handler, bind, new_ObjectId, ret, setTimeout, modify.
      rewrite setCacheJSON_run. cbv zeta.
      destruct (next_rejects _); simpl; lia. }
    rewrite insertOne_fresh in H by done. cbv zeta in H.
    repeat case_match; simplify_eq. intros [= Heq]. lia.
Qed.

(** C6 fails as stated: no test on identifiers can tell the provisional
    ones from those the collection assigns, since the same one is either. *)
Lemma provisional_ids_carry_no_tag :
  ~ exists is_provisional : value -> bool,
      (forall req_body w t,
          In t (timers (snd (write_behind req_body w))) ->
          ~ In t (timers w) ->
          is_provisional (VOid (ft_tempId t)) = true) /\
      (forall d w insertedId d' w',
          insertOne d w = (Returned (insertedId, d'), w') ->
          is_provisional insertedId = false).
Proof.
  intros (tag & Hprov & Hreal).
  specialize (Hprov None empty_world (FlushTask [("_id", VOid 0)] 0)).
  specialize (Hreal [] empty_world (VOid 0) [("_id", VOid 0)]
                (set_store (fun _ => [[("_id", VOid 0)]])
                   (called (MongoInsert [("_id", VOid 0)]) (set_oid_next 1 empty_world)))).
  simpl in Hprov. rewrite Hprov in Hreal; [|by left|by intros []].
  discriminate Hreal. reflexivity.
Qed.

Lemma provisional_id_from_store_generator_witness :
  let w2 := fire (snd (write_behind None empty_world)) in
  insertOne reading_s1 w2 =
    (Returned (VOid 2, obj_set "_id" (VOid 2) reading_s1),
     snd (insertOne reading_s1 w2)) /\
  VOid 2 <> VOid 0.
Proof.
  intros w2. split; [reflexivity|].
  apply (proj2 (proj2 (provisional_id_from_store_generator None empty_world))
           w2 reading_s1 (VOid 2) (obj_set "_id" (VOid 2) reading_s1)
           (snd (insertOne reading_s1 w2))).
  - apply rtc_once, step_fire.
  - reflexivity.
  - reflexivity.
Defined.




(** C8.  Cache-aside, when no adapter call rejects.  On a hit the cached
    value is returned with [warm: true].  On a miss the reading is looked up
    in the collection: when it is there it is returned with [warm: false]
    and its text is cached without expiration, so that the next read of the
    same id is [warm: true] and returns the same reading as it travels on
    the wire; when it is not there the answer is [null] with [warm: false]
    and the cache is as before. *)
Theorem cache_aside_contract (id : string) (w : world) :
  healthy w ->
  let k := key id in
  (forall v, cache_hit w k v ->
     cache_aside id w =
       (Response 200 (read_body "cache-aside" true v), called (RedisGet k) w)) /\
  (cache_miss w k ->
   forall d, store_lookup id (store w) = Some d ->
     let w' := snd (cache_aside id w) in
     fst (cache_aside id w) = Response 200 (read_body "cache-aside" false (VObj d)) /\
     cache w' = <[k := Entry (JSON_stringify (VObj d)) None]> (cache w) /\
     store w' = store w /\
     (wf_value (VObj d) = true ->
      fst (cache_aside id w') =
        Response 200 (read_body "cache-aside" true (toJSON (VObj d))) /\
      JSON_stringify (toJSON (VObj d)) = JSON_stringify (VObj d))) /\
  (cache_miss w k ->
   store_lookup id (store w) = None ->
   fst (cache_aside id w) = Response 200 (read_body "cache-aside" false VNull) /\
   cache (snd (cache_aside id w)) = cache w).
Proof.
  intros Hw k. split; [|split].
  - intros v [Hv Ht]. unfold cache_aside, handler, bind, ret. fold k.
    rewrite getCacheJSON_run, healthy_next, Hv, Ht by done. reflexivity.
  - intros (v & Hv & Ht) d Hd.
    assert (Hrun : cache_aside id w =
      (Response 200 (read_body "cache-aside" false (VObj d)),
       set_cache (insert k (Entry (JSON_stringify (VObj d)) None))
         (called (RedisSet k (JSON_stringify (VObj d)) None)
            (called (lookup_op id) (called (RedisGet k) w))))).
    { unfold cache_aside, handler, bind, ret. fold k.
      rewrite getCacheJSON_run, healthy_next, Hv, Ht by done. simpl.
      rewrite getFromMongo_healthy by auto with healthy.
      cbn [store called]. rewrite Hd. simpl.
      rewrite setCacheJSON_run. cbv zeta.
      rewrite healthy_next by auto with healthy. reflexivity. }
    rewrite Hrun. cbn [fst snd].
    split; [done|]. split; [done|]. split; [done|].
    intros Hwf. split; [|apply stringify_toJSON].
    unfold cache_aside, handler, bind, ret. fold k.
    rewrite getCacheJSON_run, healthy_next by auto 10 with healthy.
    rewrite cached_populated by done. reflexivity.
  - intros (v & Hv & Ht) Hd. unfold cache_aside, handler, bind, ret. fold k.
    rewrite getCacheJSON_run, healthy_next, Hv, Ht by done. simpl.
    rewrite getFromMongo_healthy by auto with healthy.
    cbn [store called]. rewrite Hd. done.
Qed.

Lemma cache_aside_contract_witness :
  let d := obj_set "_id" (VOid 0) reading_s1 in
  let w' := snd (cache_aside "s1" w_one_reading) in
  fst (cache_aside "s1" w_one_reading) =
    Response 200 (read_body "cache-aside" false (VObj d)) /\
  fst (cache_aside "s1" w') =
    Response 200 (read_body "cache-aside" true (toJSON (VObj d))) /\
  JSON_stringify (toJSON (VObj d)) = JSON_stringify (VObj d).
Proof.
  intros d w'.
  destruct (cache_aside_contract "s1" w_one_reading) as (_ & Hmiss & _);
    [constructor|].
  destruct (Hmiss (ex_intro _ VNull (conj eq_refl eq_refl)) d eq_refl)
    as (H1 & _ & _ & H2).
  destruct (H2 eq_refl) as [H3 H4].
  split; [exact H1|]. split; [exact H3|exact H4].
Defined.

(** C9.  The read-through handler and the cache-aside handler leave the same
    world and give the same status, the same [data], the same [warm] and the
    same [error]: their answers differ in the [strategy] label only. *)
Theorem read_through_is_cache_aside (id : string) (w : world) :
  let rt := read_through id w in
  let ca := cache_aside id w in
  snd rt = snd ca /\
  status (fst rt) = status (fst ca) /\
  field "data" (body (fst rt)) = field "data" (body (fst ca)) /\
  field "warm" (body (fst rt)) = field "warm" (body (fst ca)) /\
  field "error" (body (fst rt)) = field "error" (body (fst ca)).
Proof.
  unfold read_through, cache_aside, handler, bind, ret.
  repeat run_step; done.
Qed.

(** C10.  [getFromMongo] looks a reading up by [sensorId] exactly when its
    lookup by [_id] throws, be it [new ObjectId(id)] or [findOne].  For an
    id that is a well-formed ObjectId and is the [_id] of no document, when
    the lookup does not throw, the result is [null] after that one
    lookup. *)
Theorem getFromMongo_fallback_only_on_throw (id : string) (w : world) :
  let primary := (let! o := ObjectId_from id in findOne_by_id o)%js in
  let w' := snd (getFromMongo id w) in
  (existsb is_sensor_lookup (calls w w') = true <->
   exists e w1, primary w = (Thrown e, w1)) /\
  (forall o,
      oid_of_string id = Some o ->
      List.find (has_oid o) (store w) = None ->
      next_rejects w = false ->
      getFromMongo id w = (Returned VNull, called (MongoFindById o) w) /\
      calls w w' = [MongoFindById o]).
Proof.
  intros primary w'. subst primary w'. split.
  - rewrite getFromMongo_run.
    unfold ObjectId_from, findOne_by_id, bind, gets, ret, throw.
    destruct (oid_of_string id) as [o|].
    + rewrite adapter_call_run. cbv zeta.
      destruct (next_rejects w); unfold called; simpl;
        rewrite <- ?app_assoc, calls_called; simpl.
      * split; eauto.
      * split; [done|]. by intros (? & ? & ?).
    + unfold called at 1. simpl. rewrite calls_called. simpl. split; eauto.
  - intros o Ho Hnone Hok. rewrite getFromMongo_run, Ho. cbv zeta.
    rewrite Hok, Hnone. simpl. split; [done|]. unfold called. apply calls_called.
Qed.

Lemma getFromMongo_fallback_only_on_throw_witness :
  getFromMongo "000000000000000000000001" w_one_reading =
    (Returned VNull, called (MongoFindById 1) w_one_reading) /\
  calls w_one_reading (snd (getFromMongo "000000000000000000000001" w_one_reading)) =
    [MongoFindById 1].
Proof.
  apply (getFromMongo_fallback_only_on_throw "000000000000000000000001" w_one_reading);
    reflexivity.
Defined.

(** * Further properties of the server *)

(** ** Frames: what a computation leaves alone *)

Section Keeps.
Context (R : world -> world -> Prop).
Hypothesis R_refl : forall w, R w w.
Hypothesis R_trans : forall w1 w2 w3, R w1 w2 -> R w2 w3 -> R w1 w3.

Lemma keeps_ret {A} (a : A) : keeps R (ret a).
Proof. intros w r w' [= <- <-]. apply R_refl. Qed.

Lemma keeps_throw {A} e : keeps R (@throw A e).
Proof. intros w r w' [= <- <-]. apply R_refl. Qed.

Lemma keeps_pure {A} (x : outcome A) : keeps R (fun w => (x, w)).
Proof. intros w r w' [= <- <-]. apply R_refl. Qed.

Lemma keeps_gets {A} (f : world -> A) : keeps R (gets f).
Proof. intros w r w' [= <- <-]. apply R_refl. Qed.

Lemma keeps_bind {A B} (m : M A) (k : A -> M B) :
  keeps R m -> (forall a, keeps R (k a)) -> keeps R (bind m k).
Proof.
  intros Hm Hk w r w' H. unfold bind in H.
  destruct (m w) as [[a|e] w1] eqn:E; apply Hm in E.
  - apply Hk in H. eauto.
  - by injection H as <- <-.
Qed.

Lemma keeps_try_catch {A} (m : M A) h :
  keeps R m -> (forall e, keeps R (h e)) -> keeps R (try_catch m h).
Proof.
  intros Hm Hh w r w' H. unfold try_catch in H.
  destruct (m w) as [[a|e] w1] eqn:E; apply Hm in E.
  - by injection H as <- <-.
  - apply Hh in H. eauto.
Qed.

Lemma keeps_if {A} (b : bool) (m1 m2 : M A) :
  keeps R m1 -> keeps R m2 -> keeps R (if b then m1 else m2).
Proof. by destruct b. Qed.

Lemma keeps_modify f : (forall w, R w (f w)) -> keeps R (modify f).
Proof. intros Hf w r w' [= <- <-]. apply Hf. Qed.

Lemma keeps_adapter_call o :
  (forall w, R w (called o w)) -> keeps R (adapter_call o).
Proof.
  intros Ho w r w'. unfold adapter_call.
  destruct (faults w) as [|[] ?]; intros [= <- <-]; apply Ho.
Qed.

Lemma keeps_new_ObjectId :
  (forall n w, R w (set_oid_next n w)) -> keeps R new_ObjectId.
Proof. intros Hn w r w' [= <- <-]. apply Hn. Qed.

Lemma keeps_handler (m : M response) w : keeps R m -> R w (snd (handler m w)).
Proof.
  intros H. unfold handler. destruct (m w) as [[r|e] w'] eqn:E; apply H in E; done.
Qed.

End Keeps.

Ltac keeps_tac refl trans side :=
  repeat first
    [ apply (keeps_ret _ refl)
    | apply (keeps_throw _ refl)
    | apply (keeps_gets _ refl)
    | apply (keeps_pure _ refl)
    | apply (keeps_bind _ trans); [|intros ?]
    | apply (keeps_try_catch _ trans); [|intros ?]
    | apply keeps_if
    | apply keeps_modify; intros ?; solve [side]
    | apply keeps_adapter_call; intros ?; solve [side]
    | apply keeps_new_ObjectId; intros ? ?; solve [side]
    | match goal with |- keeps _ (match ?x with _ => _ end) => destruct x end ].

Lemma store_grows_refl w : store_grows w w.
Proof. exists []. by rewrite app_nil_r. Qed.

Lemma store_grows_trans w1 w2 w3 :
  store_grows w1 w2 -> store_grows w2 w3 -> store_grows w1 w3.
Proof. intros [l1 H1] [l2 H2]. exists (l1 ++ l2)%list. by rewrite H2, H1, app_assoc. Qed.

Ltac grows_side :=
  first [ apply store_grows_refl
        | eexists; simpl; reflexivity
        | exists []; simpl; by rewrite app_nil_r ].

Ltac grows_tac := keeps_tac store_grows_refl store_grows_trans grows_side.

Lemma grows_insertOne doc : keeps store_grows (insertOne doc).
Proof. unfold insertOne. grows_tac. Qed.

Ltac unfold_server :=
  cbv delta [getCacheJSON redis_get getFromMongo ObjectId_from findOne_by_id
    findOne_by_sensor setCacheJSON redis_set redis_del redis_ttl
    insertOne setTimeout console_log flush]; cbv beta.

Ltac unfold_routes :=
  cbv delta [cache_aside read_through write_through write_behind ttl_readings
    bench]; cbv beta.

Lemma grows_flush t : keeps store_grows (flush t).
Proof. unfold_server. grows_tac. Qed.

Lemma step_store_grows w w' : step w w' -> store_grows w w'.
Proof.
  destruct 1; try (unfold_routes; apply keeps_handler;
                   unfold_server; grows_tac).
  - unfold health.
    match goal with |- context [match ?m w with _ => _ end] =>
      assert (Hm : keeps store_grows m) by grows_tac;
      destruct (m w) as [[r|e] w'] eqn:E; apply Hm in E; exact E
    end.
  - unfold fire. destruct (timers w) as [|t ts]; [grows_side|].
    destruct (flush t _) as [r w'] eqn:E. apply grows_flush in E.
    destruct E as [l E]. exists l. exact E.
  - grows_side.
  - grows_side.
Qed.

Lemma logs_refl P w : logs P w w.
Proof. exists []. by rewrite app_nil_r. Qed.

Lemma logs_trans P w1 w2 w3 : logs P w1 w2 -> logs P w2 w3 -> logs P w1 w3.
Proof.
  intros (l1 & H1 & P1) (l2 & H2 & P2). exists (l1 ++ l2)%list.
  split; [by rewrite H2, H1, app_assoc|]. by rewrite forallb_app, P1, P2.
Qed.

Lemma logs_calls P w w' : logs P w w' -> forallb P (calls w w') = true.
Proof. intros (l & H & HP). unfold calls. by rewrite H, drop_app_length. Qed.

Lemma prefix_key id : String.prefix "readings:" (key id) = true.
Proof. by destruct id. Qed.

Ltac logs_side :=
  first [ apply logs_refl
        | eexists [_]; split;
          [ reflexivity
          | first [ reflexivity
                  | cbn [forallb in_namespace redis_key];
                    rewrite prefix_key; reflexivity ] ]
        | exists []; split; [simpl; by rewrite app_nil_r|reflexivity] ].

Ltac logs_tac P := keeps_tac (logs_refl P) (logs_trans P) logs_side.

Lemma namespace_flush t : keeps (logs in_namespace) (flush t).
Proof. unfold_server. logs_tac in_namespace. Qed.

Lemma step_namespace w w' : step w w' -> logs in_namespace w w'.
Proof.
  destruct 1; try (unfold_routes; apply keeps_handler;
                   unfold_server; logs_tac in_namespace).
  - unfold health.
    match goal with |- context [match ?m w with _ => _ end] =>
      assert (Hm : keeps (logs in_namespace) m) by logs_tac in_namespace;
      destruct (m w) as [[r|e] w'] eqn:E; apply Hm in E; exact E
    end.
  - unfold fire. destruct (timers w) as [|t ts]; [logs_side|].
    destruct (flush t _) as [r w'] eqn:E. apply namespace_flush in E. exact E.
  - logs_side.
  - logs_side.
Qed.

Lemma stays_sound_refl w : stays_sound w w.
Proof. by intros H. Qed.

Lemma stays_sound_trans w1 w2 w3 :
  stays_sound w1 w2 -> stays_sound w2 w3 -> stays_sound w1 w3.
Proof. unfold stays_sound. auto. Qed.

Lemma sound_insert k v ex w :
  stays_sound w (set_cache (insert k (Entry (JSON_stringify v) ex)) w).
Proof.
  intros H k' e Hl. cbn in Hl. destruct (decide (k = k')) as [->|Hne].
  - rewrite lookup_insert_eq in Hl. injection Hl as <-. by exists v.
  - rewrite lookup_insert_ne in Hl by done. eauto.
Qed.

Lemma sound_delete k w : stays_sound w (set_cache (delete k) w).
Proof.
  intros H k' e Hl. cbn in Hl. apply lookup_delete_Some in Hl as [_ Hl]. eauto.
Qed.

Ltac sound_side :=
  first [ apply sound_insert | apply sound_delete
        | let Hs := fresh in intros Hs; exact Hs ].

Ltac sound_tac := keeps_tac stays_sound_refl stays_sound_trans sound_side.

Lemma sound_flush t : keeps stays_sound (flush t).
Proof. unfold_server. cbv zeta. sound_tac. Qed.

Lemma step_sound w w' : step w w' -> stays_sound w w'.
Proof.
  destruct 1; try (unfold_routes; apply keeps_handler;
                   unfold_server; cbv zeta; sound_tac).
  - unfold health.
    match goal with |- context [match ?m w with _ => _ end] =>
      assert (Hm : keeps stays_sound m) by sound_tac;
      destruct (m w) as [[r|e] w'] eqn:E; apply Hm in E; exact E
    end.
  - unfold fire. destruct (timers w) as [|t ts]; [sound_side|].
    destruct (flush t _) as [r w'] eqn:E. apply sound_flush in E. exact E.
  - sound_side.
  - sound_side.
Qed.

(** ** JSON: what is read back from any written text *)

Lemma parse_elems_canon l :
  Forall reads_back l ->
  forall acc fuel rest,
    l <> [] ->
    (length l + list_sum (map vsize l) <= fuel)%nat ->
    parse_elems fuel acc (stringify_elems l +:+ String "]" rest) =
    Some ((acc ++ map canon l)%list, rest).
Proof.
  induction 1 as [|x l Hx Hl IH]; intros acc fuel rest Hne Hfuel; [done|].
  simpl in Hfuel. destruct fuel as [|f]; [lia|].
  rewrite parse_elems_S. destruct l as [|y l'].
  - cbn [stringify_elems].
    rewrite (Hx f (String "]" rest)) by (done || lia).
    reflexivity.
  - rewrite stringify_elems_cons, !string_app_assoc.
    rewrite (Hx f) by (done || lia).
    rewrite string_app_cons, string_app_nil_l, skip_ws_cons by done.
    change (N_of_ascii "," =? 44)%N with true. cbv iota.
    rewrite IH; [|done|simpl in *; lia].
    by rewrite <- app_assoc.
Qed.

Lemma parse_members_canon fs :
  Forall (fun kv => reads_back (snd kv)) fs ->
  forall acc fuel rest,
    fs <> [] ->
    (length fs + list_sum (map (fun kv => vsize (snd kv)) fs) <= fuel)%nat ->
    parse_members fuel acc (stringify_members fs +:+ String "}" rest) =
    Some (fold_left (fun acc kv => obj_set (fst kv) (canon (snd kv)) acc) fs acc,
          rest).
Proof.
  induction 1 as [|[k x] fs Hx Hfs IH]; intros acc fuel rest Hne Hfuel; [done|].
  simpl in Hx. simpl in Hfuel. destruct fuel as [|f]; [lia|].
  destruct fs as [|kv fs'].
  - cbn [stringify_members]. unfold quoteJSONString. norm_app.
    rewrite parse_members_S, parse_chars_quote_body.
    rewrite skip_ws_cons by done.
    change (N_of_ascii ":" =? 58)%N with true. cbv iota.
    rewrite (Hx f (String "}" rest)) by (done || lia).
    rewrite skip_ws_cons by done.
    change (N_of_ascii "}" =? 44)%N with false.
    change (N_of_ascii "}" =? 125)%N with true. cbv iota.
    reflexivity.
  - rewrite stringify_members_cons. unfold quoteJSONString at 1. norm_app.
    rewrite parse_members_S, parse_chars_quote_body.
    rewrite skip_ws_cons by done.
    change (N_of_ascii ":" =? 58)%N with true. cbv iota.
    rewrite (Hx f) by (done || lia).
    rewrite skip_ws_cons by done.
    change (N_of_ascii "," =? 44)%N with true. cbv iota.
    rewrite IH; [reflexivity|done|simpl in *; lia].
Qed.

Lemma parse_value_canon v : reads_back v.
Proof.
  induction v as [|b|z|s|o|l Hl|fs Hfs] using value_ind';
    intros fuel rest Hfuel Hrest;
    (destruct fuel as [|f]; [simpl in Hfuel; lia|]).
  - apply parse_value_literal.
  - destruct b; apply parse_value_literal.
  - by apply parse_value_number.
  - apply parse_value_string.
  - apply parse_value_string.
  - rewrite stringify_arr. norm_app. rewrite parse_value_array.
    destruct l as [|x l']; [reflexivity|].
    set (l := x :: l') in *.
    assert (Hhead : exists c t,
      stringify_elems l +:+ String "]" rest = String c t /\
      is_ws c = false /\ (N_of_ascii c =? 93)%N = false).
    { destruct (stringify_head x) as (c & t & Hx & Hc).
      subst l. destruct l'; [cbn [stringify_elems]|rewrite stringify_elems_cons];
        rewrite Hx; norm_app; eauto. }
    destruct Hhead as (c & t & Hs & Hws & Hc).
    rewrite Hs, skip_ws_cons, Hc, <- Hs by done.
    rewrite (parse_elems_canon l Hl); [done|done|].
    simpl in Hfuel. subst l. simpl. lia.
  - rewrite stringify_obj. norm_app. rewrite parse_value_object.
    destruct fs as [|[k x] fs']; [reflexivity|].
    set (l := (k, x) :: fs') in *.
    assert (Hhead : exists t,
      stringify_members l +:+ String "}" rest = String dquote t).
    { subst l. destruct fs'; [cbn [stringify_members]|rewrite stringify_members_cons];
        unfold quoteJSONString; norm_app; eauto. }
    destruct Hhead as (t & Hs).
    rewrite Hs, skip_ws_cons by done.
    change (N_of_ascii dquote =? 125)%N with false. cbv iota. rewrite <- Hs.
    rewrite (parse_members_canon l Hfs); [done|done|].
    simpl in Hfuel. subst l. simpl. lia.
Qed.

Lemma JSON_parse_canon v : JSON_parse (JSON_stringify v) = Some (canon v).
Proof.
  unfold JSON_parse.
  pose proof (parse_value_canon v
                (2 * String.length (JSON_stringify v) + 2)%nat "") as H.
  rewrite string_app_nil_r in H. rewrite H; [done| |done].
  pose proof (vsize_bound v). lia.
Qed.

(** ** Expiration *)

Lemma redis_ttl_remaining k w :
  redis_ttl k w =
  (if next_rejects w then Thrown unavailable else Returned (remaining w k),
   called (RedisTtl k) w).
Proof. apply redis_ttl_run. Qed.

Lemma healthy_elapse dt w : healthy w -> healthy (elapse dt w).
Proof. done. Qed.
#[local] Hint Resolve healthy_elapse : healthy.

Lemma cached_absent w k : redis_lookup w k = None -> cached w k = Returned VNull.
Proof. intros H. unfold cached. by rewrite H. Qed.

Lemma cached_text w k e v :
  redis_lookup w k = Some e -> payload e = JSON_stringify v ->
  cached w k = Returned (canon v).
Proof.
  intros H Hp. unfold cached. rewrite H. simpl. rewrite Hp, JSON_parse_canon.
  destruct (stringify_head v) as (c & t & -> & _). done.
Qed.

Lemma canon_wf v : wf_value v = true -> canon v = toJSON v.
Proof.
  intros H. pose proof (JSON_parse_canon v) as H1.
  rewrite (JSON_parse_stringify v H) in H1. congruence.
Qed.

(** The TTL read, case by case, when no call rejects. *)
Lemma ttl_run_hit ttl id w v :
  healthy w -> cache_hit w (key id) v ->
  ttl_readings ttl id w =
  (Response 200 (ttl_body true (remaining w (key id)) v),
   called (RedisTtl (key id)) (called (RedisGet (key id)) w)).
Proof.
  intros Hw [Hv Ht]. unfold ttl_readings, handler, bind, ret.
  rewrite getCacheJSON_run, healthy_next, Hv, Ht by done. simpl.
  rewrite redis_ttl_remaining, healthy_next by auto with healthy. reflexivity.
Qed.

Lemma ttl_run_absent ttl id w :
  healthy w -> cache_miss w (key id) -> store_lookup id (store w) = None ->
  ttl_readings ttl id w =
  (Response 200 (ttl_body false (remaining w (key id)) VNull),
   called (RedisTtl (key id)) (called (lookup_op id) (called (RedisGet (key id)) w))).
Proof.
  intros Hw (v & Hv & Ht) Hd. unfold ttl_readings, handler, bind, ret.
  rewrite getCacheJSON_run, healthy_next, Hv, Ht by done. simpl.
  rewrite getFromMongo_healthy by auto with healthy.
  cbn [store called]. rewrite Hd. simpl.
  rewrite redis_ttl_remaining, healthy_next by auto with healthy. reflexivity.
Qed.


(** X1.  A value that [setCacheJSON] stored is what [getCacheJSON] reads at the
    same key afterwards, as [JSON.parse] reads its text back, for as long as
    the entry lives: always when it was stored without a TTL or with the TTL
    0, and for less than [n] seconds when it was stored with the TTL [n];
    from then on the read gives [null]. *)
Theorem cache_json_round_trip (k : string) (v : value) (ttlSec : option Z)
    (w w1 : world) (dt : Z) :
  setCacheJSON k v ttlSec w = (Returned tt, w1) ->
  next_rejects (elapse dt w1) = false ->
  fst (getCacheJSON k (elapse dt w1)) =
  Returned
    match ttlSec with
    | Some n => if (n =? 0) || (dt <? n) then canon v else VNull
    | None => canon v
    end.
Proof.
  intros Hset Hok. rewrite getCacheJSON_run, Hok. cbn [fst].
  rewrite setCacheJSON_run in Hset. cbv zeta in Hset.
  destruct (next_rejects w); [discriminate|].
  destruct ttlSec as [n|]; [destruct (n =? 0) eqn:E0|].
  - injection Hset as <-. eapply (cached_text _ _ _ v).
    + unfold redis_lookup. simpl. by rewrite lookup_insert_eq.
    + reflexivity.
  - destruct (n <=? 0) eqn:E1; [discriminate|]. injection Hset as <-.
    simpl. destruct (dt <? n) eqn:E2.
    + eapply (cached_text _ _ _ v).
      * unfold redis_lookup, live. simpl. rewrite lookup_insert_eq. simpl.
        destruct (now w + dt <? now w + n) eqn:E3; [done|lia].
      * reflexivity.
    + apply cached_absent. unfold redis_lookup, live. simpl.
      rewrite lookup_insert_eq. simpl.
      destruct (now w + dt <? now w + n) eqn:E3; [lia|done].
  - injection Hset as <-. eapply (cached_text _ _ _ v).
    + unfold redis_lookup. simpl. by rewrite lookup_insert_eq.
    + reflexivity.
Qed.

Lemma cache_json_round_trip_witness :
  let v := VObj (obj_set "_id" (VOid 0) reading_s1) in
  let w1 := snd (setCacheJSON "k" v (Some 60) empty_world) in
  fst (getCacheJSON "k" (elapse 59 w1)) = Returned (toJSON v) /\
  fst (getCacheJSON "k" (elapse 60 w1)) = Returned VNull.
Proof.
  intros v w1. split.
  - apply (cache_json_round_trip "k" v (Some 60) empty_world w1 59); reflexivity.
  - apply (cache_json_round_trip "k" v (Some 60) empty_world w1 60); reflexivity.
Defined.

(** X2.  A TTL read of a key that is warm answers with the cached value and
    [warm: true], reports the time that the entry has left, or -1 when it
    has no expiration, and leaves the keyspace as it was: a warm read does
    not renew the expiration. *)
Theorem ttl_hit_keeps_deadline (ttl : Z) (id : string) (w : world) (v : value) :
  healthy w ->
  cache_hit w (key id) v ->
  exists e,
    redis_lookup w (key id) = Some e /\
    let left := match expireAt e with
                | None => -1
                | Some deadline => deadline - now w
                end in
    fst (ttl_readings ttl id w) = Response 200 (ttl_body true left v) /\
    cache (snd (ttl_readings ttl id w)) = cache w /\
    (left = -1 \/ 0 < left).
Proof.
  intros Hw Hhit. rewrite (ttl_run_hit ttl id w v Hw Hhit).
  destruct Hhit as [Hv Ht]. unfold remaining.
  destruct (redis_lookup w (key id)) as [e|] eqn:He.
  - exists e. split; [done|]. cbv zeta. split; [done|]. split; [done|].
    unfold redis_lookup in He. destruct (cache w !! key id) as [e'|]; [|done].
    destruct (live (now w) e') eqn:El; [|done]. injection He as ->.
    unfold live in El. destruct (expireAt e); [right; lia|by left].
  - rewrite (cached_absent _ _ He) in Hv. injection Hv as <-. done.
Qed.

Lemma ttl_hit_keeps_deadline_witness :
  exists e,
    redis_lookup w_warm_forever (key "s1") = Some e /\
    fst (ttl_readings 60 "s1" w_warm_forever) =
      Response 200
        (ttl_body true (-1) (toJSON (VObj (obj_set "_id" (VOid 0) reading_s1)))).
Proof.
  destruct (ttl_hit_keeps_deadline 60 "s1" w_warm_forever
              (toJSON (VObj (obj_set "_id" (VOid 0) reading_s1))))
    as (e & He & Hr & _).
  - constructor.
  - split; reflexivity.
  - exists e. split; [exact He|].
    assert (expireAt e = None) as Hn.
    { change (redis_lookup w_warm_forever (key "s1"))
        with (Some (Entry (JSON_stringify (VObj (obj_set "_id" (VOid 0) reading_s1))) None))
        in He. by injection He as <-. }
    rewrite Hn in Hr. exact Hr.
Defined.

(** X3.  A TTL read of an id that is neither in the cache nor in the collection
    answers 200 with [data: null], [warm: false] and [ttlLeftSeconds: -2],
    and stores nothing. *)
Theorem ttl_absent_sentinel (ttl : Z) (id : string) (w : world) :
  healthy w ->
  redis_lookup w (key id) = None ->
  store_lookup id (store w) = None ->
  fst (ttl_readings ttl id w) = Response 200 (ttl_body false (-2) VNull) /\
  cache (snd (ttl_readings ttl id w)) = cache w.
Proof.
  intros Hw Hc Hd.
  rewrite (ttl_run_absent ttl id w Hw); [|exists VNull; by rewrite cached_absent|done].
  unfold remaining. by rewrite Hc.
Qed.

Lemma ttl_absent_sentinel_witness :
  fst (ttl_readings 60 "nobody" w_one_reading) =
    Response 200 (ttl_body false (-2) VNull).
Proof.
  apply (ttl_absent_sentinel 60 "nobody" w_one_reading); [constructor|reflexivity..].
Defined.



(** X5.  With a negative TTL, a cold TTL read of a stored reading answers 500
    with the error of Redis about the expire time, and neither the cache nor
    the collection changes. *)
Theorem ttl_negative_is_rejected (ttl : Z) (id : string) (w : world) (d : document) :
  ttl < 0 ->
  healthy w ->
  cache_miss w (key id) ->
  store_lookup id (store w) = Some d ->
  fst (ttl_readings ttl id w) = Response 500 (error_body invalid_expire) /\
  cache (snd (ttl_readings ttl id w)) = cache w /\
  store (snd (ttl_readings ttl id w)) = store w.
Proof.
  intros Httl Hw (v & Hv & Ht) Hd. unfold ttl_readings, handler, bind, ret.
  rewrite getCacheJSON_run, healthy_next, Hv, Ht by done. simpl.
  rewrite getFromMongo_healthy by auto with healthy.
  cbn [store called]. rewrite Hd. simpl.
  rewrite setCacheJSON_run. cbv zeta.
  rewrite healthy_next by auto with healthy.
  destruct (ttl =? 0) eqn:E0; [lia|]. destruct (ttl <=? 0) eqn:E1; [|lia].
  done.
Qed.

Lemma ttl_negative_is_rejected_witness :
  fst (ttl_readings (-5) "s1" w_one_reading) =
    Response 500 (error_body invalid_expire).
Proof.
  apply (ttl_negative_is_rejected (-5) "s1" w_one_reading
           (obj_set "_id" (VOid 0) reading_s1));
    [lia|constructor|by exists VNull|reflexivity].
Defined.

(** ** Write-through, then the reads *)

Lemma keys_obj_set k v o :
  map fst (obj_set k v o) =
  if existsb (String.eqb k) (map fst o) then map fst o
  else (map fst o ++ [k])%list.
Proof.
  induction o as [|[k' v'] o IH]; simpl; [done|].
  rewrite (String.eqb_sym k k'). destruct (String.eqb k' k); simpl; [done|].
  rewrite IH. by destruct (existsb _ _).
Qed.

Lemma nodup_keys_snoc l k :
  nodup_keys l = true -> existsb (String.eqb k) l = false ->
  nodup_keys (l ++ [k]) = true.
Proof.
  induction l as [|x l IH]; simpl; [done|].
  intros H1 H2. apply andb_true_iff in H1 as [Hx Hl].
  apply orb_false_iff in H2 as [Hkx Hk].
  rewrite IH by done. rewrite existsb_app. simpl.
  apply negb_true_iff in Hx. rewrite Hx, String.eqb_sym, Hkx. done.
Qed.

Lemma nodup_keys_obj_set k v o :
  nodup_keys (map fst o) = true -> nodup_keys (map fst (obj_set k v o)) = true.
Proof.
  intros H. rewrite keys_obj_set.
  destruct (existsb _ _) eqn:E; [done|]. by apply nodup_keys_snoc.
Qed.

Lemma forallb_obj_set (P : string * value -> bool) k v o :
  (forall k1 k2 x, P (k1, x) = P (k2, x)) ->
  P (k, v) = true -> forallb P o = true -> forallb P (obj_set k v o) = true.
Proof.
  intros Hkey Hv. induction o as [|[k' v'] o IH]; simpl; [by rewrite Hv|].
  intros H. apply andb_true_iff in H as [H1 H2].
  destruct (String.eqb k' k); simpl.
  - by rewrite (Hkey k' k), Hv, H2.
  - by rewrite H1, IH.
Qed.

Lemma wf_obj_set k v o :
  wf_value v = true -> wf_value (VObj o) = true ->
  wf_value (VObj (obj_set k v o)) = true.
Proof.
  simpl. intros Hv H. apply andb_true_iff in H as [H1 H2].
  rewrite nodup_keys_obj_set by done. simpl.
  by apply (forallb_obj_set (fun kv => wf_value (snd kv))).
Qed.

Lemma wf_spread t s :
  wf_value (VObj t) = true -> forallb (fun kv => wf_value (snd kv)) s = true ->
  wf_value (VObj (spread t s)) = true.
Proof.
  unfold spread. revert t. induction s as [|[k v] s IH]; intros t Ht Hs; [done|].
  simpl in Hs. apply andb_true_iff in Hs as [Hv Hs]. simpl.
  apply IH; [|done]. by apply wf_obj_set.
Qed.

Lemma wf_obj_get k o v :
  wf_value (VObj o) = true -> obj_get k o = Some v -> wf_value v = true.
Proof.
  simpl. intros H. apply andb_true_iff in H as [_ H].
  induction o as [|[k' v'] o IH]; simpl in *; [done|].
  apply andb_true_iff in H as [H1 H2].
  destruct (String.eqb k' k); [by intros [= <-]|auto].
Qed.

(** An insert keeps documents well formed. *)
Lemma insertOne_wf doc w insertedId d w' :
  wf_value (VObj doc) = true ->
  insertOne doc w = (Returned (insertedId, d), w') ->
  wf_value insertedId = true /\ wf_value (VObj d) = true /\
  obj_del "_id" d = obj_del "_id" doc.
Proof.
  intros Hwf. unfold insertOne, new_ObjectId. unfold_monad.
  destruct (obj_get "_id" doc) as [v|] eqn:Hid.
  - assert (Hv : wf_value v = true) by (by eapply wf_obj_get).
    intros H. destruct v; repeat case_match; simplify_eq; try done;
      (split; [done|]); (split; [by apply wf_obj_set|apply obj_del_set]).
  - intros H. repeat case_match; simplify_eq;
      (split; [done|]); (split; [by apply wf_obj_set|apply obj_del_set]).
Qed.

(** The write-through handler, when it answers 201. *)
Lemma write_through_created req_body w r w1 :
  write_through req_body w = (r, w1) -> status r = 201 ->
  exists insertedId body' w0,
    let doc := spread [("_id", insertedId)] body' in
    let k := key (value_toString insertedId) in
    insertOne (body_or_empty req_body) w = (Returned (insertedId, body'), w0) /\
    r = Response 201 (VObj [("strategy", VStr "write-through"); ("doc", VObj doc)]) /\
    w1 = set_cache (insert k (Entry (JSON_stringify (VObj doc)) None))
           (called (RedisSet k (JSON_stringify (VObj doc)) None) w0).
Proof.
  intros Hrun Hst. unfold write_through, handler, bind in Hrun.
  destruct (insertOne _ w) as [[[insertedId body']|e] w0] eqn:Hins;
    [|by injection Hrun as <- <-].
  rewrite setCacheJSON_run in Hrun. cbv zeta in Hrun.
  destruct (next_rejects w0); injection Hrun as <- <-; [done|].
  by exists insertedId, body', w0.
Qed.

Lemma obj_get_set_ne k k' v o :
  String.eqb k' k = false -> obj_get k (obj_set k' v o) = obj_get k o.
Proof.
  intros Hne. induction o as [|[k1 v1] o IH]; simpl.
  - by rewrite Hne.
  - destruct (String.eqb k1 k') eqn:E1; simpl.
    + destruct (String.eqb k1 k) eqn:E2; [|done].
      apply String.eqb_eq in E1, E2. subst. by rewrite String.eqb_refl in Hne.
    + by rewrite IH.
Qed.

Lemma obj_get_spread_same k v t s :
  obj_get k t = Some v -> (forall v', In (k, v') s -> v' = v) ->
  obj_get k (spread t s) = Some v.
Proof.
  unfold spread. revert t. induction s as [|[k1 v1] s IH]; intros t Ht Hs; [done|].
  simpl. apply IH; [|intros v' Hin; apply Hs; by right].
  destruct (String.eqb k1 k) eqn:E.
  - apply String.eqb_eq in E as ->. rewrite (Hs v1) by (by left).
    apply obj_get_set.
  - by rewrite obj_get_set_ne.
Qed.

Lemma nodup_get_in k v v' o :
  nodup_keys (map fst o) = true -> obj_get k o = Some v -> In (k, v') o -> v' = v.
Proof.
  induction o as [|[k1 v1] o IH]; simpl; [done|].
  intros Hnd Hget [Heq|Hin].
  - injection Heq as -> ->. rewrite String.eqb_refl in Hget. congruence.
  - apply andb_true_iff in Hnd as [H1 H2].
    destruct (String.eqb k1 k) eqn:E; [|auto].
    apply String.eqb_eq in E as ->. apply negb_true_iff in H1.
    assert (existsb (String.eqb k) (map fst o) = true); [|congruence].
    apply existsb_exists. exists k. split; [|apply String.eqb_refl].
    apply in_map_iff. by exists (k, v').
Qed.

(** X6.  After a write-through, of a body without repeated property names, that
    answered 201, a read-through of the identifier of the answered document
    whose Redis read is not rejected is warm, makes that one call and no
    other, and answers with the answered document as JSON reads it back,
    which has the same JSON text. *)
Theorem write_through_then_read_through (req_body : option document)
    (w : world) (r : response) (w1 : world) :
  wf_value (VObj (body_or_empty req_body)) = true ->
  write_through req_body w = (r, w1) ->
  status r = 201 ->
  next_rejects w1 = false ->
  exists insertedId doc,
    field "doc" (body r) = Some (VObj doc) /\
    obj_get "_id" doc = Some insertedId /\
    let id := value_toString insertedId in
    read_through id w1 =
      (Response 200 (read_body "read-through" true (toJSON (VObj doc))),
       called (RedisGet (key id)) w1) /\
    JSON_stringify (toJSON (VObj doc)) = JSON_stringify (VObj doc).
Proof.
  intros Hwf Hrun Hst Hok.
  destruct (write_through_created _ _ _ _ Hrun Hst)
    as (insertedId & body' & w0 & Hins & -> & ->).
  destruct (insertOne_wf _ _ _ _ _ Hwf Hins) as (Hid & Hb & _).
  set (doc := spread [("_id", insertedId)] body') in *.
  assert (Hdoc : wf_value (VObj doc) = true).
  { apply wf_spread; [by simpl; rewrite Hid|].
    simpl in Hb. by apply andb_true_iff in Hb as [_ ?]. }
  exists insertedId, doc. split; [done|]. split.
  { apply insertOne_frame in Hins as (_ & _ & _ & _ & _ & _ & Hget & _).
    apply obj_get_spread_same; [done|]. intros v' Hin.
    simpl in Hb. apply andb_true_iff in Hb as [Hnd _].
    by eapply nodup_get_in. }
  cbv zeta. split; [|apply stringify_toJSON].
  unfold read_through, handler, bind, ret.
  rewrite getCacheJSON_run, Hok.
  erewrite (cached_text _ _ (Entry (JSON_stringify (VObj doc)) None) (VObj doc));
    [|by apply redis_lookup_insert|done].
  rewrite canon_wf by done. reflexivity.
Qed.

Lemma write_through_then_read_through_witness :
  let w1 := snd (write_through (Some reading_s1) empty_world) in
  let doc := ("_id", VOid 0) :: reading_s1 in
  read_through (oid_toString 0) w1 =
    (Response 200 (read_body "read-through" true (toJSON (VObj doc))),
     called (RedisGet (key (oid_toString 0))) w1).
Proof.
  intros w1 doc.
  destruct (write_through_then_read_through (Some reading_s1) empty_world _ w1
              eq_refl eq_refl eq_refl eq_refl) as (i & d & Hd & Hi & Hr & _).
  injection Hd as <-. injection Hi as <-. exact Hr.
Defined.

Lemma cache_aside_run_populate id w d :
  healthy w -> cache_miss w (key id) -> store_lookup id (store w) = Some d ->
  cache_aside id w =
  (Response 200 (read_body "cache-aside" false (VObj d)),
   set_cache (insert (key id) (Entry (JSON_stringify (VObj d)) None))
     (called (RedisSet (key id) (JSON_stringify (VObj d)) None)
        (called (lookup_op id) (called (RedisGet (key id)) w)))).
Proof.
  intros Hw (v & Hv & Ht) Hd. unfold cache_aside, handler, bind, ret.
  rewrite getCacheJSON_run, healthy_next, Hv, Ht by done. simpl.
  rewrite getFromMongo_healthy by auto with healthy.
  cbn [store called]. rewrite Hd. simpl.
  rewrite setCacheJSON_run. cbv zeta.
  rewrite healthy_next by auto with healthy. reflexivity.
Qed.

(** X7.  The document that a write-through answered 201 with is in the
    collection under the answered [_id], with the fields of the request
    body; when the [_id] is an ObjectId, a cache-aside read of it finds
    that document in the collection whenever the cache misses, for
    instance after the cache was lost. *)
Theorem written_through_survives_cache_loss (req_body : option document)
    (w : world) (r : response) (w1 : world) (doc : document) (o : N) :
  wf_value (VObj (body_or_empty req_body)) = true ->
  write_through req_body w = (r, w1) ->
  status r = 201 ->
  field "doc" (body r) = Some (VObj doc) ->
  obj_get "_id" doc = Some (VOid o) ->
  (o < 2 ^ 96)%N ->
  exists stored,
    In stored (store w1) /\
    obj_get "_id" stored = Some (VOid o) /\
    obj_del "_id" stored = obj_del "_id" (body_or_empty req_body) /\
    forall w2,
      store w2 = store w1 -> healthy w2 ->
      cache_miss w2 (key (oid_toString o)) ->
      fst (cache_aside (oid_toString o) w2) =
        Response 200 (read_body "cache-aside" false (VObj stored)).
Proof.
  intros Hwf Hrun Hst Hdoc Hid Ho.
  destruct (write_through_created _ _ _ _ Hrun Hst)
    as (insertedId & body' & w0 & Hins & -> & ->).
  destruct (insertOne_wf _ _ _ _ _ Hwf Hins) as (_ & Hb & Hdel).
  pose proof Hins as Hfr.
  apply insertOne_frame in Hfr as (_ & _ & _ & _ & _ & Hstore & Hget & Hfresh).
  simpl in Hdoc. injection Hdoc as <-.
  assert (insertedId = VOid o) as ->.
  { assert (obj_get "_id" (spread [("_id", insertedId)] body') = Some insertedId);
      [|congruence].
    apply obj_get_spread_same; [done|]. intros v' Hin.
    simpl in Hb. apply andb_true_iff in Hb as [Hnd _].
    by eapply nodup_get_in. }
  exists body'. cbn [store set_cache called]. rewrite Hstore.
  split; [apply in_or_app; right; by left|]. split; [done|]. split; [done|].
  intros w2 Hs Hw2 Hmiss.
  rewrite (cache_aside_run_populate _ w2 body' Hw2 Hmiss); [done|].
  rewrite Hs. unfold store_lookup. rewrite oid_of_string_toString by done.
  apply find_app_fresh; [by rewrite existsb_has_oid|].
  unfold has_oid. by rewrite Hget, N.eqb_refl.
Qed.

Lemma written_through_survives_cache_loss_witness :
  let w1 := snd (write_through (Some reading_s1) empty_world) in
  fst (cache_aside (oid_toString 0) (set_cache (fun _ => ∅) w1)) =
    Response 200
      (read_body "cache-aside" false (VObj (obj_set "_id" (VOid 0) reading_s1))).
Proof.
  intros w1.
  destruct (written_through_survives_cache_loss (Some reading_s1) empty_world
              _ w1 (("_id", VOid 0) :: reading_s1) 0
              eq_refl eq_refl eq_refl eq_refl eq_refl) as (d & Hin & _ & _ & Hread).
  - reflexivity.
  - destruct Hin as [<-|[]].
    apply Hread; [reflexivity|constructor|by exists VNull].
Defined.

(** ** Reading a text twice *)







(** ** Write-behind and its flush *)

Lemma obj_get_in k v o : obj_get k o = Some v -> In (k, v) o.
Proof.
  induction o as [|[k1 v1] o IH]; simpl; [done|].
  destruct (String.eqb k1 k) eqn:E; [|auto].
  apply String.eqb_eq in E as ->. intros [= ->]. by left.
Qed.

Lemma obj_get_spread_in k v t s :
  In (k, v) s -> (forall v', In (k, v') s -> v' = v) ->
  obj_get k (spread t s) = Some v.
Proof.
  revert t. induction s as [|[k1 v1] s IH]; intros t Hin Hs; [done|].
  destruct Hin as [Heq|Hin].
  - injection Heq as -> ->. change (spread t ((k, v) :: s))
      with (spread (obj_set k v t) s).
    apply obj_get_spread_same; [apply obj_get_set|].
    intros v' Hv'. apply Hs. by right.
  - change (spread t ((k1, v1) :: s)) with (spread (obj_set k1 v1 t) s).
    apply IH; [done|]. intros v' Hv'. apply Hs. by right.
Qed.

Lemma same_timers_refl w : same_timers w w.
Proof. done. Qed.

Lemma same_timers_trans w1 w2 w3 :
  same_timers w1 w2 -> same_timers w2 w3 -> same_timers w1 w3.
Proof. unfold same_timers. congruence. Qed.

Ltac timers_tac :=
  keeps_tac same_timers_refl same_timers_trans ltac:(reflexivity).

Lemma timers_flush t : keeps same_timers (flush t).
Proof. unfold_server. cbv zeta. timers_tac. Qed.

(** A flush without a rejected call. *)
Lemma flush_run_clean t w :
  healthy w ->
  existsb (has_id (VOid (oid_next w))) (store w) = false ->
  let realId := oid_next w in
  let stored := obj_set "_id" (VOid realId) (obj_del "_id" (ft_doc t)) in
  let persisted := VObj (spread [("_id", VOid realId)] stored) in
  flush t w =
  (Returned tt,
   set_console (fun c => c ++ ["write-behind persisted: " +:+ oid_toString realId])%list
     (set_cache (insert (key (oid_toString realId))
                   (Entry (JSON_stringify persisted) None))
        (called (RedisSet (key (oid_toString realId)) (JSON_stringify persisted) None)
           (set_cache (delete (key (oid_toString (ft_tempId t))))
              (called (RedisDel (key (oid_toString (ft_tempId t))))
                 (set_store (fun s => s ++ [stored])%list
                    (called (MongoInsert stored) (set_oid_next (realId + 1) w)))))))).
Proof.
  intros Hw Hfresh realId stored persisted.
  unfold flush, try_catch, bind, console_log, modify.
  rewrite insertOne_fresh by apply obj_get_del. cbv zeta.
  rewrite healthy_next, Hfresh by done.
  rewrite redis_del_run, healthy_next by auto with healthy.
  rewrite setCacheJSON_run. cbv zeta.
  rewrite healthy_next by auto 10 with healthy.
  reflexivity.
Qed.

(** The write-behind handler, case by case. *)
Lemma write_behind_run req_body w :
  let tempId := oid_next w in
  let doc := spread [("_id", VOid tempId)] (body_or_empty req_body) in
  let k := key (oid_toString tempId) in
  let w0 := called (RedisSet k (JSON_stringify (VObj doc)) None)
              (set_oid_next (tempId + 1) w) in
  write_behind req_body w =
  if next_rejects w then (Response 500 (error_body unavailable), w0)
  else
    (Response 202
       (VObj [("strategy", VStr "write-behind"); ("queued", VBool true);
              ("doc", VObj doc)]),
     set_timers (fun ts => ts ++ [FlushTask doc tempId])%list
       (set_cache (insert k (Entry (JSON_stringify (VObj doc)) None)) w0)).
Proof.
  cbv zeta. unfold write_behind, handler, bind, new_ObjectId, ret, setTimeout, modify.
  rewrite setCacheJSON_run. cbv zeta.
  change (next_rejects (set_oid_next _ w)) with (next_rejects w).
  by destruct (next_rejects w).
Qed.

(** X9.  When the request body of a write-behind carries its own [_id], the
    answered and cached document has that [_id] and not the provisional
    one, while the cache key is built from the provisional identifier; the
    entry under the key of the [_id] of the body is as it was. *)
Theorem write_behind_answers_body_id (req_body : option document) (w : world)
    (v : value) :
  next_rejects w = false ->
  nodup_keys (map fst (body_or_empty req_body)) = true ->
  obj_get "_id" (body_or_empty req_body) = Some v ->
  let tempId := oid_next w in
  let w1 := snd (write_behind req_body w) in
  exists doc,
    field "doc" (body (fst (write_behind req_body w))) = Some (VObj doc) /\
    obj_get "_id" doc = Some v /\
    cache w1 !! key (oid_toString tempId) =
      Some (Entry (JSON_stringify (VObj doc)) None) /\
    (key (value_toString v) <> key (oid_toString tempId) ->
     cache w1 !! key (value_toString v) = cache w !! key (value_toString v)).
Proof.
  intros Hok Hnd Hv tempId w1. subst w1.
  rewrite write_behind_run, Hok. cbv zeta.
  eexists. split; [reflexivity|]. split; [|split].
  - apply obj_get_spread_in; [by apply obj_get_in|].
    intros v' Hin. by eapply nodup_get_in.
  - apply lookup_insert_eq.
  - intros Hne. cbn. by rewrite lookup_insert_ne.
Qed.

Lemma write_behind_answers_body_id_witness :
  let b := [("_id", VStr "mine"); ("reading", VNum 7)] in
  field "doc" (body (fst (write_behind (Some b) empty_world))) = Some (VObj b) /\
  cache (snd (write_behind (Some b) empty_world)) !! key "mine" = None /\
  is_Some (cache (snd (write_behind (Some b) empty_world)) !! key (oid_toString 0)).
Proof.
  intros b.
  destruct (write_behind_answers_body_id (Some b) empty_world (VStr "mine")
              eq_refl eq_refl eq_refl) as (doc & Hd & _ & Hc & Hne).
  split; [reflexivity|]. split.
  - change (key "mine") with (key (value_toString (VStr "mine"))).
    rewrite Hne; [reflexivity|]. discriminate.
  - eexists. exact Hc.
Defined.

(** X10.  When the cache populate of a write-behind is rejected, the handler
    answers 500, no flush is scheduled, cache and collection are as before,
    and the provisional identifier is used up. *)
Theorem write_behind_rejected_schedules_nothing (req_body : option document)
    (w : world) :
  next_rejects w = true ->
  let w1 := snd (write_behind req_body w) in
  fst (write_behind req_body w) = Response 500 (error_body unavailable) /\
  timers w1 = timers w /\ cache w1 = cache w /\ store w1 = store w /\
  oid_next w1 = (oid_next w + 1)%N.
Proof. intros Hrej w1. subst w1. by rewrite write_behind_run, Hrej. Qed.

Lemma write_behind_rejected_schedules_nothing_witness :
  fst (write_behind (Some reading_s1) w_first_call_rejects) =
    Response 500 (error_body unavailable) /\
  timers (snd (write_behind (Some reading_s1) w_first_call_rejects)) = [].
Proof.
  destruct (write_behind_rejected_schedules_nothing (Some reading_s1)
              w_first_call_rejects eq_refl) as (H1 & H2 & _).
  split; [exact H1|exact H2].
Defined.

(** X11.  A flush whose insert succeeded and whose following Redis call is
    rejected leaves the record in the collection and logs the failure: when
    the delete is rejected the cache is as before, so the provisional entry
    stays; when the populate is rejected the provisional entry is deleted
    and the record is not cached. *)
Theorem flush_fails_after_insert (t : flush_task) (w : world) :
  next_rejects w = false ->
  existsb (has_id (VOid (oid_next w))) (store w) = false ->
  let stored := obj_set "_id" (VOid (oid_next w)) (obj_del "_id" (ft_doc t)) in
  let w' := snd (flush t w) in
  (nth 1 (faults w) false = true ->
   store w' = (store w ++ [stored])%list /\
   cache w' = cache w /\
   console w' = (console w ++ [flush_failed unavailable])%list) /\
  (nth 1 (faults w) false = false -> nth 2 (faults w) false = true ->
   store w' = (store w ++ [stored])%list /\
   cache w' = delete (key (oid_toString (ft_tempId t))) (cache w) /\
   console w' = (console w ++ [flush_failed unavailable])%list).
Proof.
  intros Hok Hfresh stored w'. subst w'.
  unfold flush, try_catch, bind, console_log, modify.
  rewrite insertOne_fresh by apply obj_get_del. cbv zeta.
  rewrite Hok, Hfresh. rewrite redis_del_run.
  assert (H1 : next_rejects
            (set_store (fun s => s ++ [stored])%list
               (called (MongoInsert stored) (set_oid_next (oid_next w + 1) w))) =
          nth 1 (faults w) false).
  { unfold next_rejects. simpl. by destruct (faults w) as [|? [|? ?]]. }
  fold stored. rewrite H1. split.
  - intros ->. done.
  - intros -> H2. rewrite setCacheJSON_run. cbv zeta.
    assert (H3 : forall f, next_rejects
              (set_cache f
                 (called (RedisDel (key (oid_toString (ft_tempId t))))
                    (set_store (fun s => s ++ [stored])%list
                       (called (MongoInsert stored)
                          (set_oid_next (oid_next w + 1) w))))) = true).
    { intros f. unfold next_rejects. simpl. rewrite <- H2.
      by destruct (faults w) as [|? [|? [|? ?]]]. }
    rewrite H3. done.
Qed.

Lemma flush_fails_after_insert_witness :
  let w := set_faults [false; false; true]
             (snd (write_behind (Some reading_s1) empty_world)) in
  store (snd (flush t_reading w)) = [obj_set "_id" (VOid 1) reading_s1] /\
  cache (snd (flush t_reading w)) = ∅ /\
  console (snd (flush t_reading w)) = [flush_failed unavailable].
Proof.
  intros w.
  destruct (flush_fails_after_insert t_reading w eq_refl eq_refl) as [_ H].
  destruct (H eq_refl eq_refl) as (H1 & H2 & H3).
  split; [exact H1|]. split; [|exact H3].
  rewrite H2. reflexivity.
Defined.

(** X12.  Firing runs the oldest pending callback and removes it; the callback
    schedules nothing, so a flush is never tried again. *)
Theorem fire_runs_one_timer_once (w : world) : timers (fire w) = tl (timers w).
Proof.
  unfold fire. destruct (timers w) as [|t ts] eqn:E; [by rewrite E|].
  destruct (flush t _) as [r w'] eqn:Hf. apply timers_flush in Hf.
  simpl. exact Hf.
Qed.

Lemma healthy_set_console f w : healthy w -> healthy (set_console f w).
Proof. done. Qed.
Lemma healthy_set_timers f w : healthy w -> healthy (set_timers f w).
Proof. done. Qed.
#[local] Hint Resolve healthy_set_console healthy_set_timers : healthy.

Lemma cache_aside_run_hit id w v :
  next_rejects w = false -> cache_hit w (key id) v ->
  cache_aside id w =
  (Response 200 (read_body "cache-aside" true v), called (RedisGet (key id)) w).
Proof.
  intros Hok [Hv Ht]. unfold cache_aside, handler, bind, ret.
  rewrite getCacheJSON_run, Hok, Hv, Ht. reflexivity.
Qed.

Lemma cache_aside_run_absent id w :
  healthy w -> cache_miss w (key id) -> store_lookup id (store w) = None ->
  cache_aside id w =
  (Response 200 (read_body "cache-aside" false VNull),
   called (lookup_op id) (called (RedisGet (key id)) w)).
Proof.
  intros Hw (v & Hv & Ht) Hd. unfold cache_aside, handler, bind, ret.
  rewrite getCacheJSON_run, healthy_next, Hv, Ht by done. simpl.
  rewrite getFromMongo_healthy by auto with healthy.
  cbn [store called]. by rewrite Hd.
Qed.

Lemma find_app_none {A} (f : A -> bool) l x :
  existsb f l = false -> f x = false -> List.find f (l ++ [x])%list = None.
Proof.
  induction l as [|y l IH]; simpl.
  - by intros _ ->.
  - destruct (f y); [done|]. simpl. auto.
Qed.

(** X13.  After a write-behind, a cache-aside read of the provisional id is warm
    and answers with the queued document; after the flush has run without a
    rejected call, the same read finds nothing, in the cache or in the
    collection, and answers [data: null]. *)
Theorem provisional_id_reads (req_body : option document) (w : world) :
  next_rejects w = false ->
  let tempId := oid_next w in
  let doc := spread [("_id", VOid tempId)] (body_or_empty req_body) in
  let w1 := snd (write_behind req_body w) in
  (next_rejects w1 = false ->
   fst (cache_aside (oid_toString tempId) w1) =
     Response 200 (read_body "cache-aside" true (canon (VObj doc)))) /\
  (forall w2,
      healthy w2 ->
      (tempId < oid_next w2 < 2 ^ 96)%N ->
      existsb (has_id (VOid (oid_next w2))) (store w2) = false ->
      existsb (has_id (VOid tempId)) (store w2) = false ->
      fst (cache_aside (oid_toString tempId) (snd (flush (FlushTask doc tempId) w2))) =
        Response 200 (read_body "cache-aside" false VNull)).
Proof.
  intros Hok tempId doc w1. subst w1.
  rewrite write_behind_run, Hok. cbv zeta. fold tempId. fold doc. split.
  - intros Hok1. rewrite (cache_aside_run_hit _ _ (canon (VObj doc))); [done|done|].
    split; [|done].
    apply (cached_text _ _ (Entry (JSON_stringify (VObj doc)) None)); [|done].
    unfold redis_lookup. simpl. by rewrite lookup_insert_eq.
  - intros w2 Hw2 [Hlt Hb] Hfresh Hnone.
    rewrite (flush_run_clean _ w2 Hw2 Hfresh). cbn [snd ft_doc ft_tempId].
    rewrite cache_aside_run_absent; [done|auto 10 with healthy| |].
    + exists VNull. split; [|done]. apply cached_absent.
      unfold redis_lookup. simpl.
      rewrite lookup_insert_ne by (apply key_oid_ne; lia).
      by rewrite lookup_delete_eq.
    + simpl. unfold store_lookup. rewrite oid_of_string_toString by lia.
      apply find_app_none; [by rewrite existsb_has_oid|].
      unfold has_oid. rewrite obj_get_set.
      apply N.eqb_neq. lia.
Qed.

Lemma provisional_id_reads_witness :
  let w1 := snd (write_behind (Some reading_s1) empty_world) in
  fst (cache_aside (oid_toString 0) w1) =
    Response 200
      (read_body "cache-aside" true (toJSON (VObj (("_id", VOid 0) :: reading_s1)))) /\
  fst (cache_aside (oid_toString 0) (fire w1)) =
    Response 200 (read_body "cache-aside" false VNull).
Proof.
  intros w1.
  destruct (provisional_id_reads (Some reading_s1) empty_world eq_refl) as [H1 H2].
  split.
  - apply H1. reflexivity.
  - apply (H2 (set_timers (fun _ => []) w1)); [constructor|simpl; lia|reflexivity..].
Defined.

(** ** The routes that only read *)

Lemma reads_refl w : reads w w.
Proof. split; [done|apply logs_refl]. Qed.

Lemma reads_trans w1 w2 w3 : reads w1 w2 -> reads w2 w3 -> reads w1 w3.
Proof.
  intros [(a1 & b1 & c1 & d1 & e1) L1] [(a2 & b2 & c2 & d2 & e2) L2].
  split; [|by eapply logs_trans].
  repeat split; congruence.
Qed.

Ltac reads_side := first [split; [done|logs_side]].
Ltac reads_tac := keeps_tac reads_refl reads_trans reads_side.

Lemma keeps_health (R : world -> world -> Prop) :
  (forall w, R w w) -> (forall w1 w2 w3, R w1 w2 -> R w2 w3 -> R w1 w3) ->
  (forall w, R w (called RedisPing w)) -> (forall w, R w (called MongoPing w)) ->
  forall w, R w (snd (health w)).
Proof.
  intros Hr Ht Hc1 Hc2 w. unfold health.
  match goal with |- context [match ?m w with _ => _ end] =>
    assert (Hm : keeps R m) by (keeps_tac Hr Ht ltac:(first [apply Hc1|apply Hc2]));
    destruct (m w) as [[r|e] w'] eqn:E; apply Hm in E; exact E
  end.
Qed.

(** X14.  The two read routes, the TTL route, the benchmark and the health check
    make no insert, and change neither the collection, the clock, the
    ObjectId generator, the pending timers nor the console. *)
Theorem read_routes_leave_the_collection (ttl : Z) (id : string) (w : world) :
  Forall (fun w' => cache_only w w' /\ forallb reads_only (calls w w') = true)
    [snd (cache_aside id w); snd (read_through id w); snd (ttl_readings ttl id w);
     snd (bench id w); snd (health w)].
Proof.
  assert (H : forall w', reads w w' ->
            cache_only w w' /\ forallb reads_only (calls w w') = true).
  { intros w' [H1 H2]. split; [done|by apply logs_calls]. }
  repeat (apply List.Forall_cons; [apply H|]); try apply List.Forall_nil.
  1-4: unfold_routes; apply keeps_handler; unfold_server; cbv zeta; reads_tac.
  apply keeps_health; [apply reads_refl|apply reads_trans|intros; reads_side..].
Qed.

(** ** Invariants of every run *)

(** X15.  Two ids have the same cache key only when they are the same id. *)
Theorem key_separates (a b : string) : key a = key b <-> a = b.
Proof. split; [apply key_inj|by intros ->]. Qed.

Lemma find_app_some {A} (f : A -> bool) l l' x :
  List.find f l = Some x -> List.find f (l ++ l')%list = Some x.
Proof.
  induction l as [|y l IH]; [done|]. simpl. destruct (f y); auto.
Qed.

Lemma steps_store_grows w w' : rtc step w w' -> store_grows w w'.
Proof.
  induction 1 as [|w1 w2 w3 H _ IH]; [apply store_grows_refl|].
  eapply store_grows_trans; [by apply step_store_grows|done].
Qed.

(** X16.  Whatever the server does, the collection only grows at its end: no
    document is removed or changed, and a lookup that found a document keeps
    finding that document. *)
Theorem collection_is_append_only (w w' : world) :
  rtc step w w' ->
  store_grows w w' /\
  forall id d, store_lookup id (store w) = Some d ->
               store_lookup id (store w') = Some d.
Proof.
  intros H. apply steps_store_grows in H. split; [done|].
  destruct H as [l ->]. intros id d. unfold store_lookup.
  destruct (oid_of_string id); apply find_app_some.
Qed.

Lemma collection_is_append_only_witness :
  let w := w_one_reading in
  let w' := snd (write_through (Some reading_s1) (snd (cache_aside "s1" w))) in
  store_grows w w' /\
  forall id d, store_lookup id (store w) = Some d ->
               store_lookup id (store w') = Some d.
Proof.
  intros w w'. apply collection_is_append_only.
  eapply rtc_l; [apply step_cache_aside|]. apply rtc_once, step_write_through.
Defined.

(** X17.  Every key that the server reads, writes, deletes or asks the TTL of
    begins with [readings:]. *)
Theorem redis_calls_stay_in_namespace (w w' : world) :
  rtc step w w' -> forallb in_namespace (calls w w') = true.
Proof.
  intros H. apply logs_calls.
  induction H as [|w1 w2 w3 H _ IH]; [apply logs_refl|].
  eapply logs_trans; [by apply step_namespace|done].
Qed.

Lemma redis_calls_stay_in_namespace_witness :
  forallb in_namespace
    (calls empty_world
       (fire (snd (write_behind (Some reading_s1) empty_world)))) = true.
Proof.
  apply redis_calls_stay_in_namespace.
  eapply rtc_l; [apply step_write_behind|]. apply rtc_once, step_fire.
Defined.

Lemma sound_run_ret {A} (Q : A -> Prop) a : Q a -> sound_run Q (ret a).
Proof. by intros H w r w' Hs [= <- <-]. Qed.

Lemma sound_run_throw {A} (Q : A -> Prop) e :
  e <> syntax_error -> sound_run Q (throw e).
Proof. by intros H w r w' Hs [= <- <-]. Qed.

Lemma sound_run_gets {A} (f : world -> A) : sound_run any_result (gets f).
Proof. by intros w r w' Hs [= <- <-]. Qed.

Lemma sound_run_bind {A B} (Q : B -> Prop) (m : M A) (k : A -> M B) :
  sound_run any_result m -> (forall a, sound_run Q (k a)) -> sound_run Q (bind m k).
Proof.
  intros Hm Hk w r w' Hs H. unfold bind in H.
  destruct (m w) as [[a|e] w1] eqn:E; destruct (Hm _ _ _ Hs E) as [Hs1 He].
  - by apply Hk in H.
  - by injection H as <- <-.
Qed.

Lemma sound_run_try_catch {A} (Q : A -> Prop) (m : M A) h :
  sound_run Q m -> (forall e, sound_run Q (h e)) -> sound_run Q (try_catch m h).
Proof.
  intros Hm Hh w r w' Hs H. unfold try_catch in H.
  destruct (m w) as [[a|e] w1] eqn:E; destruct (Hm _ _ _ Hs E) as [Hs1 He].
  - by injection H as <- <-.
  - by apply Hh in H.
Qed.

Lemma sound_run_if {A} (Q : A -> Prop) (b : bool) (m1 m2 : M A) :
  sound_run Q m1 -> sound_run Q m2 -> sound_run Q (if b then m1 else m2).
Proof. by destruct b. Qed.

Lemma sound_run_modify f :
  (forall w, stays_sound w (f w)) -> sound_run any_result (modify f).
Proof. intros Hf w r w' Hs [= <- <-]. split; [by apply Hf|done]. Qed.

Lemma sound_run_adapter_call o : sound_run any_result (adapter_call o).
Proof.
  intros w r w' Hs. rewrite adapter_call_run.
  intros [= <- <-]. split; [done|]. by destruct (next_rejects w).
Qed.

Lemma sound_run_getCacheJSON k : sound_run any_result (getCacheJSON k).
Proof.
  intros w r w' Hs. rewrite getCacheJSON_run. intros [= <- <-].
  split; [done|]. destruct (next_rejects w); [done|].
  destruct (redis_lookup w k) as [e|] eqn:E.
  - assert (cache w !! k = Some e) as Hc.
    { unfold redis_lookup in E. destruct (cache w !! k) as [e'|]; [|done].
      destruct (live _ _); congruence. }
    destruct (Hs k e Hc) as [v Hv].
    by rewrite (cached_text w k e v E Hv).
  - by rewrite cached_absent.
Qed.

Ltac sound_run_tac :=
  repeat first
    [ apply sound_run_getCacheJSON
    | apply sound_run_ret; done
    | apply sound_run_throw; done
    | apply sound_run_gets
    | apply sound_run_adapter_call
    | apply sound_run_bind; [|intros ?]
    | apply sound_run_try_catch; [|intros ?]
    | apply sound_run_if
    | apply sound_run_modify; intros ?; solve [sound_side]
    | match goal with |- sound_run _ (match ?x with _ => _ end) => destruct x end ].

Ltac unfold_below_cache :=
  cbv delta [getFromMongo ObjectId_from findOne_by_id
    findOne_by_sensor setCacheJSON redis_set redis_del redis_ttl]; cbv beta.

Lemma sound_run_handler (m : M response) w :
  sound_run (fun r => status r = 200) m -> sound_cache w ->
  fst (handler m w) <> Response 500 (error_body syntax_error) /\
  sound_cache (snd (handler m w)).
Proof.
  intros H Hs. unfold handler.
  destruct (m w) as [[r|e] w'] eqn:E; destruct (H _ _ _ Hs E) as [Hs' Hr].
  - split; [|done]. simpl. intros ->. done.
  - split; [|done]. simpl. intros [= ->]. done.
Qed.

(** X18.  When the cache holds only texts that [JSON.stringify] wrote, it still
    does after whatever the server does, and no read route answers with the
    syntax error of [JSON.parse]: the server never fails on what it cached
    itself. *)
Theorem own_writes_always_parse (w0 w : world) (ttl : Z) (id : string) :
  sound_cache w0 -> rtc step w0 w ->
  sound_cache w /\
  Forall (fun r => r <> Response 500 (error_body syntax_error))
    [fst (cache_aside id w); fst (read_through id w);
     fst (ttl_readings ttl id w); fst (bench id w)].
Proof.
  intros Hs0 Hrun.
  assert (Hs : sound_cache w).
  { induction Hrun as [|w1 w2 w3 H _ IH]; [done|].
    apply IH. by apply (step_sound w1 w2). }
  split; [done|].
  repeat (apply List.Forall_cons;
          [unfold_routes; apply sound_run_handler; [|done];
           unfold_below_cache; cbv zeta; sound_run_tac|]).
  apply List.Forall_nil.
Qed.

Lemma own_writes_always_parse_witness :
  let w := snd (write_through (Some reading_s1) empty_world) in
  sound_cache w /\
  Forall (fun r => r <> Response 500 (error_body syntax_error))
    [fst (cache_aside "s1" w); fst (read_through "s1" w);
     fst (ttl_readings 60 "s1" w); fst (bench "s1" w)].
Proof.
  intros w. apply (own_writes_always_parse empty_world).
  - intros k e H. cbn in H. rewrite lookup_empty in H. discriminate.
  - apply rtc_once, step_write_through.
Defined.

(** ** Lookups, health check and benchmark *)

Lemma doc_or_null_obj o d : doc_or_null o = VObj d -> o = Some d.
Proof. destruct o; simpl; congruence. Qed.

(** X19.  A document that [getFromMongo] returns is in the collection, and its
    [sensorId] matches the id or its [_id] is the ObjectId that the id
    spells, whichever calls were rejected on the way. *)
Theorem getFromMongo_returns_a_match (id : string) (w w' : world) (d : document) :
  getFromMongo id w = (Returned (VObj d), w') ->
  In d (store w) /\
  (has_sensor id d = true \/
   exists o, oid_of_string id = Some o /\ has_oid o d = true).
Proof.
  rewrite getFromMongo_run. intros H.
  assert (List.find (has_sensor id) (store w) = Some d \/
          exists o, oid_of_string id = Some o /\
                    List.find (has_oid o) (store w) = Some d) as [Hf|(o & Ho & Hf)].
  { destruct (oid_of_string id) as [o|]; cbv zeta in H.
    - destruct (next_rejects w).
      + destruct (next_rejects _); [done|].
        injection H as H _. left. by apply doc_or_null_obj.
      + injection H as H _. right. exists o. split; [done|].
        by apply doc_or_null_obj.
    - destruct (next_rejects w); [done|].
      injection H as H _. left. by apply doc_or_null_obj. }
  - apply find_some in Hf as [Hin Hm]. auto.
  - apply find_some in Hf as [Hin Hm]. eauto.
Qed.

Lemma getFromMongo_returns_a_match_witness :
  let d := obj_set "_id" (VOid 0) reading_s1 in
  In d (store w_one_reading) /\
  (has_sensor "s1" d = true \/
   exists o, oid_of_string "s1" = Some o /\ has_oid o d = true).
Proof.
  apply (getFromMongo_returns_a_match "s1" w_one_reading
           (called (MongoFindBySensor "s1") w_one_reading)).
  reflexivity.
Defined.

(** X20.  The health check answers 200 with [status: 'ok'] when neither ping is
    rejected and 500 with [status: 'error'] and the message otherwise; it
    does not ping MongoDB after a rejected Redis ping, and it leaves the
    keyspace alone. *)
Theorem health_reports_both_pings (w : world) :
  let failed := next_rejects w || next_rejects (called RedisPing w) in
  status (fst (health w)) = (if failed then 500 else 200) /\
  field "status" (body (fst (health w))) =
    Some (VStr (if failed then "error" else "ok")) /\
  field "error" (body (fst (health w))) =
    (if failed then Some (VStr unavailable) else None) /\
  calls w (snd (health w)) =
    (if next_rejects w then [RedisPing] else [RedisPing; MongoPing]) /\
  cache (snd (health w)) = cache w.
Proof.
  unfold health, bind, ret. rewrite adapter_call_run.
  destruct (next_rejects w) eqn:E1; simpl.
  - repeat split; try done. by norm_calls.
  - rewrite adapter_call_run.
    destruct (next_rejects (called RedisPing w)) eqn:E2; simpl;
      repeat split; try done; by norm_calls.
Qed.

(** X21.  When no call is rejected, the benchmark answers 200 with the id, looks
    the id up in the collection once whatever the cache held, and leaves
    under the key the stored document without expiration, or nothing when
    the collection has no such document. *)
Theorem bench_repopulates (id : string) (w : world) :
  healthy w ->
  let k := key id in
  let found := store_lookup id (store w) in
  status (fst (bench id w)) = 200 /\
  field "id" (body (fst (bench id w))) = Some (VStr id) /\
  cache (snd (bench id w)) =
    match found with
    | Some d => <[k := Entry (JSON_stringify (VObj d)) None]> (cache w)
    | None => delete k (cache w)
    end /\
  calls w (snd (bench id w)) =
    RedisDel k :: RedisGet k :: lookup_op id ::
    match found with
    | Some d => [RedisSet k (JSON_stringify (VObj d)) None; RedisGet k]
    | None => [RedisGet k]
    end.
Proof.
  intros Hw k found. subst found.
  unfold bench, handler, bind, ret. fold k.
  rewrite redis_del_run, healthy_next by done.
  rewrite getCacheJSON_run, healthy_next by auto with healthy.
  rewrite cached_absent
    by (unfold redis_lookup; simpl; by rewrite lookup_delete_eq).
  change (negb (truthy VNull)) with true. cbv beta iota.
  rewrite getFromMongo_healthy by auto 10 with healthy.
  cbn [store called set_cache].
  destruct (store_lookup id (store w)) as [d|]; cbn [doc_or_null truthy]; cbv beta iota.
  - rewrite setCacheJSON_run. cbv zeta.
    rewrite healthy_next by auto 10 with healthy. cbv beta iota.
    rewrite getCacheJSON_run, healthy_next by auto 10 with healthy.
    rewrite (cached_text _ _ (Entry (JSON_stringify (VObj d)) None) (VObj d));
      [|by (unfold redis_lookup; simpl; rewrite lookup_insert_eq)|done].
    repeat split; try done.
    + simpl. by rewrite insert_delete_eq.
    + by norm_calls.
  - rewrite getCacheJSON_run, healthy_next by auto 10 with healthy.
    rewrite cached_absent
      by (unfold redis_lookup; simpl; by rewrite lookup_delete_eq).
    repeat split; try done. by norm_calls.
Qed.

Lemma bench_repopulates_witness :
  let k := key "s1" in
  let d := obj_set "_id" (VOid 0) reading_s1 in
  status (fst (bench "s1" w_one_reading)) = 200 /\
  field "id" (body (fst (bench "s1" w_one_reading))) = Some (VStr "s1") /\
  cache (snd (bench "s1" w_one_reading)) =
    <[k := Entry (JSON_stringify (VObj d)) None]> (cache w_one_reading) /\
  calls w_one_reading (snd (bench "s1" w_one_reading)) =
    [RedisDel k; RedisGet k; lookup_op "s1";
     RedisSet k (JSON_stringify (VObj d)) None; RedisGet k].
Proof.
  apply (bench_repopulates "s1" w_one_reading). constructor.
Defined.
